(** * Keyword-ranking pipeline of the blog analyzer

    A shallow embedding of [keywordAnalyzer.ts] (hashtag and noun extraction,
    smart-keyword selection, rank probing against the paginated search API,
    best-keyword selection) and of [calcGrade] from [sheetSaver.ts], followed
    by the properties the specification states about them. *)

From Stdlib Require Import String Ascii.
From Stdlib Require Import List NArith ZArith Bool Lia.
From Stdlib Require Import Permutation Sorted DecimalString.
From Stdlib Require Import PrimFloat SpecFloat FloatOps.
Import ListNotations.
Local Open Scope list_scope.

(** ** JavaScript strings and the built-ins the program uses *)

(** A JavaScript string is a sequence of UTF-16 code units; [length], the
    regular-expression ranges and [endsWith] all work on code units. *)
Definition jschar := N.
Definition jsstring := list jschar.

(** Source literals are written as UTF-8 text and decoded to code units. *)
Fixpoint utf16 (s : string) : jsstring :=
  match s with
  | EmptyString => []
  | String a rest =>
    let b := N_of_ascii a in
    if (b <? 128)%N then b :: utf16 rest
    else if (b <? 224)%N then
      match rest with
      | String a2 rest2 =>
        ((b - 192) * 64 + (N_of_ascii a2 - 128))%N :: utf16 rest2
      | _ => [65533%N]
      end
    else if (b <? 240)%N then
      match rest with
      | String a2 (String a3 rest3) =>
        ((b - 224) * 4096 + (N_of_ascii a2 - 128) * 64
         + (N_of_ascii a3 - 128))%N :: utf16 rest3
      | _ => [65533%N]
      end
    else
      match rest with
      | String a2 (String a3 (String a4 rest4)) =>
        let v := ((b - 240) * 262144 + (N_of_ascii a2 - 128) * 4096
                  + (N_of_ascii a3 - 128) * 64 + (N_of_ascii a4 - 128)
                  - 65536)%N in
        (55296 + v / 1024)%N :: (56320 + v mod 1024)%N :: utf16 rest4
      | _ => [65533%N]
      end
  end.
Arguments utf16 s%_string.

Module JS.

(** [a === b] on strings. *)
Fixpoint String_eqb (a b : jsstring) : bool :=
  match a, b with
  | [], [] => true
  | x :: a', y :: b' => (x =? y)%N && String_eqb a' b'
  | _, _ => false
  end.

Fixpoint startsWith (s p : jsstring) {struct p} : bool :=
  match p, s with
  | [], _ => true
  | x :: p', y :: s' => (x =? y)%N && startsWith s' p'
  | _ :: _, [] => false
  end.

(** [s.includes(p)]: [p] occurs in [s] at some index. *)
Fixpoint String_includes (s p : jsstring) : bool :=
  startsWith s p ||
  match s with
  | [] => false
  | _ :: s' => String_includes s' p
  end.

(** [s.endsWith(p)]. *)
Definition endsWith (s p : jsstring) : bool :=
  (length p <=? length s)%nat &&
  String_eqb (skipn (length s - length p) s) p.

(** [s.slice(b, e)] with the negative-index rule of the language. *)
Definition String_slice (s : jsstring) (b e : Z) : jsstring :=
  let len := Z.of_nat (length s) in
  let from := if (b <? 0)%Z then Z.max (len + b) 0 else Z.min b len in
  let to := if (e <? 0)%Z then Z.max (len + e) 0 else Z.min e len in
  firstn (Z.to_nat (to - from)) (skipn (Z.to_nat from) s).

(** [s.replace(p, r)] with a string pattern: the first occurrence only. *)
Fixpoint String_replace (s p r : jsstring) : jsstring :=
  if startsWith s p then r ++ skipn (length p) s
  else match s with
       | [] => []
       | c :: s' => c :: String_replace s' p r
       end.

(** [xs.includes(x)] on an array of strings. *)
Definition Array_includes (xs : list jsstring) (x : jsstring) : bool :=
  existsb (String_eqb x) xs.

(** [new Set(xs)] iterated: insertion order, first occurrence kept. *)
Definition Set_add (acc : list jsstring) (x : jsstring) : list jsstring :=
  if Array_includes acc x then acc else acc ++ [x].

Definition Set_of (xs : list jsstring) : list jsstring :=
  fold_left Set_add xs [].

(** [xs.sort(cmp)]: the language requires a stable sort, so for a
    consistent comparator the result is the stable insertion sort. *)
Section Sort.
Context {A : Type} (cmp : A -> A -> Z).

Fixpoint insert (x : A) (l : list A) : list A :=
  match l with
  | [] => [x]
  | y :: l' => if (cmp x y <=? 0)%Z then x :: l else y :: insert x l'
  end.

Fixpoint Array_sort (l : list A) : list A :=
  match l with
  | [] => []
  | x :: l' => insert x (Array_sort l')
  end.
End Sort.

(** A [Map] with string keys, as the list of its entries in insertion
    order; [set] on a present key keeps the key's position. *)
Definition Map (V : Type) := list (jsstring * V).

Fixpoint Map_get {V} (m : Map V) (k : jsstring) : option V :=
  match m with
  | [] => None
  | (k', v) :: m' => if String_eqb k' k then Some v else Map_get m' k
  end.

Definition Map_has {V} (m : Map V) (k : jsstring) : bool :=
  match Map_get m k with Some _ => true | None => false end.

Fixpoint Map_set {V} (m : Map V) (k : jsstring) (v : V) : Map V :=
  match m with
  | [] => [(k, v)]
  | (k', v') :: m' =>
    if String_eqb k' k then (k', v) :: m' else (k', v') :: Map_set m' k v
  end.

(** Character classes of the regular expressions. *)
Definition isHangul (c : jschar) : bool := ((0xAC00 <=? c) && (c <=? 0xD7A3))%N.
Definition isLower (c : jschar) : bool := ((97 <=? c) && (c <=? 122))%N.
Definition isUpper (c : jschar) : bool := ((65 <=? c) && (c <=? 90))%N.
Definition isDigit (c : jschar) : bool := ((48 <=? c) && (c <=? 57))%N.

(** [\s]: white space and line terminators. *)
Definition isSpace (c : jschar) : bool :=
  (((9 <=? c) && (c <=? 13)) || (c =? 32) || (c =? 0xA0) || (c =? 0x1680)
   || ((0x2000 <=? c) && (c <=? 0x200A)) || (c =? 0x2028) || (c =? 0x2029)
   || (c =? 0x202F) || (c =? 0x205F) || (c =? 0x3000) || (c =? 0xFEFF))%N.

Fixpoint takeWhile (p : jschar -> bool) (s : jsstring) : jsstring :=
  match s with
  | c :: s' => if p c then c :: takeWhile p s' else []
  | [] => []
  end.

End JS.
Import JS.

(** ** 1. Hashtag extraction *)

Definition isTagChar (c : jschar) : bool :=
  isHangul c || isLower c || isUpper c || isDigit c || (c =? 95)%N.

(** [content.match(/#([가-힣a-zA-Z0-9_]+)/g)]: at each index the pattern is
    tried; after a match the scan resumes behind it ([skip] counts the code
    units of the last match still to pass). *)
Fixpoint matchHashtags (skip : nat) (s : jsstring) : list jsstring :=
  match s with
  | [] => []
  | c :: rest =>
    match skip with
    | S k => matchHashtags k rest
    | O =>
      let body := takeWhile isTagChar rest in
      if (c =? 35)%N && (1 <=? length body)%nat
      then (c :: body) :: matchHashtags (length body) rest
      else matchHashtags 0 rest
    end
  end.

Definition extractHashtags (content : jsstring) : list jsstring :=
  let matches := matchHashtags 0 content in
  Set_of (map (fun t => String_replace t (utf16 "#") []) matches).

(** ** 2. Noun extraction with particle stripping *)

Definition STOPWORDS : list jsstring :=
  map utf16
    ["있습니다"; "합니다"; "하는"; "있는"; "이런"; "그런"; "저런";
     "때문"; "이후"; "이전"; "통해"; "위해"; "대한"; "관련"; "이번";
     "오늘"; "내일"; "어제"; "하지만"; "그리고"; "또한"; "따라";
     "정도"; "경우"; "부분"; "내용"; "같은"; "다른"; "모든"]%string.

Definition PARTICLES : list jsstring :=
  map utf16
    ["에서"; "으로"; "부터"; "까지"; "보다"; "처럼"; "하고";
     "은"; "는"; "이"; "가"; "을"; "를"; "의"; "에"; "와"; "과"; "도";
     "만"; "로"; "나"]%string.

(** The [for (const p of PARTICLES)] loop of [stripParticles]; [clean] is
    only assigned on the iteration that breaks. *)
Fixpoint stripLoop (ps : list jsstring) (clean : jsstring) : jsstring :=
  match ps with
  | [] => clean
  | p :: ps' =>
    if endsWith clean p && (length p <? length clean)%nat then
      let stripped := String_slice clean 0 (- Z.of_nat (length p)) in
      if (2 <=? length stripped)%nat then stripped
      else stripLoop ps' clean
    else stripLoop ps' clean
  end.

Definition stripParticles (word : jsstring) : jsstring :=
  stripLoop PARTICLES word.

(** [text.match(/[가-힣]{2,}/g)]: maximal runs of at least two Hangul
    syllables, scanned left to right. *)
Fixpoint matchHangulRuns (skip : nat) (s : jsstring) : list jsstring :=
  match s with
  | [] => []
  | c :: rest =>
    match skip with
    | S k => matchHangulRuns k rest
    | O =>
      let run := takeWhile isHangul (c :: rest) in
      if (2 <=? length run)%nat
      then run :: matchHangulRuns (length run - 1) rest
      else matchHangulRuns 0 rest
    end
  end.

(** One iteration of the loop of [extractNouns]. *)
Definition countWord (freq : Map Z) (rawWord : jsstring) : Map Z :=
  let word := stripParticles rawWord in
  if (length word <? 2)%nat || Array_includes STOPWORDS word then freq
  else
    Map_set freq word
      ((match Map_get freq word with Some n => n | None => 0 end) + 1)%Z.

Definition extractNouns (text : jsstring) : Map Z :=
  fold_left countWord (matchHangulRuns 0 text) [].

(** ** 3. Title bigrams and trigrams *)

Definition isTitleChar (c : jschar) : bool :=
  isSpace c || isHangul c || isLower c || isUpper c || isDigit c.

(** [s.split(/\s+/)] on a string being scanned: [cur] is the piece under
    construction, [inRun] tells that the previous code unit was white
    space. *)
Fixpoint splitLoop (cur : jsstring) (inRun : bool) (s : jsstring)
  : list jsstring :=
  match s with
  | [] => [cur]
  | c :: rest =>
    if isSpace c then
      if inRun then splitLoop cur true rest
      else cur :: splitLoop [] true rest
    else splitLoop (cur ++ [c]) false rest
  end.

Definition splitSpaces (s : jsstring) : list jsstring := splitLoop [] false s.

Definition SPACE : jsstring := [32%N].

(** The loop over [i] of [extractTitleNgrams]; the argument is
    [tokens.slice(i)]. *)
Fixpoint ngramLoop (tokens : list jsstring) : list jsstring :=
  match tokens with
  | t0 :: ((t1 :: rest) as tl) =>
    (t0 ++ SPACE ++ t1)
      :: match rest with
         | t2 :: _ => [t0 ++ SPACE ++ t1 ++ SPACE ++ t2]
         | [] => []
         end
      ++ ngramLoop tl
  | _ => []
  end.

Definition titleTokens (title : jsstring) : list jsstring :=
  filter (fun t => (2 <=? length t)%nat)
    (map stripParticles
       (splitSpaces (map (fun c => if isTitleChar c then c else 32%N) title))).

Definition extractTitleNgrams (title : jsstring) : list jsstring :=
  ngramLoop (titleTokens title).

(** ** 4. Smart keywords (at most five) *)

(** The three filling loops share one shape: stop at five entries, skip
    what [result] already holds. *)
Fixpoint fill (result : list jsstring) (candidates : list jsstring)
  : list jsstring :=
  match candidates with
  | [] => result
  | x :: rest =>
    if (5 <=? length result)%nat then result
    else fill (if Array_includes result x then result else result ++ [x]) rest
  end.

Definition scoredNouns (title content : jsstring) : list (jsstring * Z) :=
  let titleNouns := extractNouns title in
  let contentNouns := extractNouns content in
  map (fun e : jsstring * Z =>
         let (word, titleFreq) := e in
         let contentFreq :=
           match Map_get contentNouns word with Some n => n | None => 0%Z end in
         (word, (titleFreq * 3 + contentFreq)%Z))
      titleNouns
  ++ filter (fun e : jsstring * Z =>
               let (word, freq) := e in
               negb (Map_has titleNouns word) && (2 <=? freq)%Z)
       contentNouns.

Definition byScoreDesc (a b : jsstring * Z) : Z := (snd b - snd a)%Z.

Definition extractSmartKeywords (title content : jsstring)
    (hashtags : list jsstring) : list jsstring :=
  let result := fill [] hashtags in
  if (5 <=? length result)%nat then result
  else
    let scored := Array_sort byScoreDesc (scoredNouns title content) in
    let result := fill result (map fst scored) in
    if (5 <=? length result)%nat then result
    else fill result (extractTitleNgrams title).

(** ** 5. Candidate pool *)

Definition mergeKeywordPool (hashtags smartKeywords : list jsstring)
  : list jsstring :=
  Set_of (hashtags ++ smartKeywords).

(** ** Grades ([sheetSaver.ts]) *)

Inductive Grade := GradeS | GradeA | GradeB | GradeC | GradeUnexposed.

(** The string each grade stands for in the source. *)
Definition gradeText (g : Grade) : jsstring :=
  match g with
  | GradeS => utf16 "S"
  | GradeA => utf16 "A"
  | GradeB => utf16 "B"
  | GradeC => utf16 "C"
  | GradeUnexposed => utf16 "미노출"
  end.

Definition calcGrade (rank : option Z) : Grade :=
  match rank with
  | None => GradeUnexposed
  | Some rank =>
    if (rank =? 1)%Z then GradeS
    else if (rank <=? 5)%Z then GradeA
    else if (rank <=? 10)%Z then GradeB
    else if (rank <=? 30)%Z then GradeC
    else GradeUnexposed
  end.



(** ** Values of type [any] and search volumes *)

(** What a field of a JSON response can hold. An object or array is kept as
    the string its conversion to a primitive yields, which is all that
    [Number] looks at. *)
Inductive jsval :=
| VUndefined
| VNull
| VBool (b : bool)
| VNumber (n : float)
| VString (s : jsstring)
| VObject (toPrimitive : jsstring).

Definition typeofNumber (v : jsval) : option float :=
  match v with VNumber n => Some n | _ => None end.

Definition typeofString (v : jsval) : option jsstring :=
  match v with VString s => Some s | _ => None end.

Section Volume.
(** The built-in conversion of a string to a number (NaN when the string
    is not a numeric literal). *)
Variable StringToNumber : jsstring -> float.

(** [Number(val)]. *)
Definition Number (val : jsval) : float :=
  match val with
  | VUndefined => nan
  | VNull => 0%float
  | VBool b => if b then 1%float else 0%float
  | VNumber n => n
  | VString s => StringToNumber s
  | VObject s => StringToNumber s
  end.

Definition parseVolume (val : jsval) : float :=
  match typeofNumber val with
  | Some n => n
  | None =>
    if match typeofString val with
       | Some s => String_includes s (utf16 "<")
       | None => false
       end
    then 5%float
    else
      let n := Number val in
      if is_nan n then 0%float else n
  end.
End Volume.

(** ** Configuration, requests and responses *)

Record NaverSearchConfig := {
  clientId : jsstring;
  clientSecret : jsstring
}.

Record SearchAdsConfig := {
  licenseKey : jsstring;
  secretKey : jsstring;
  customerId : jsstring
}.

Record Config := {
  naverSearch : NaverSearchConfig;
  searchAds : SearchAdsConfig
}.

(** The [GET /naver-search/v1/search/blog.json] request. *)
Record SearchRequest := {
  query : jsstring;
  display : Z;
  start : Z;
  X_Naver_Client_Id : jsstring;
  X_Naver_Client_Secret : jsstring
}.

Record SearchItem := {
  link : option jsstring;
  bloggerlink : option jsstring
}.

(** [response.data] of the search call; [items] may be missing. *)
Record SearchData := {
  items : option (list SearchItem)
}.

(** The [GET /naver-ads/keywordstool] request. *)
Record AdsRequest := {
  hintKeywords : jsstring;
  X_Timestamp : jsstring;
  X_API_KEY : jsstring;
  X_Customer : jsstring;
  X_Signature : jsstring
}.

Record AdsKeyword := {
  relKeyword : option jsstring;
  monthlyPcQcCnt : jsval;
  monthlyMobileQcCnt : jsval
}.

Record AdsData := {
  keywordList : option (list AdsKeyword)
}.

(** What a [catch] clause can receive: an axios error with its message,
    the status of the response when there is one and the JSON text of a
    truthy response body, or any other thrown value with its [String(err)]
    text. *)
Inductive JsError :=
| AxiosError (message : jsstring) (status : option Z) (data : option jsstring)
| OtherError (text : jsstring).

Record RankEntry := {
  keyword : jsstring;
  rank : option Z
}.

Record SearchVolumeEntry := {
  sv_keyword : jsstring;
  sv_monthlyPcQcCnt : float;
  sv_monthlyMobileQcCnt : float;
  sv_totalVolume : float
}.

Record VolumeSummary := {
  totalVolume : float;
  vs_monthlyPcQcCnt : float;
  vs_monthlyMobileQcCnt : float
}.

Record AnalysisFinalResult := {
  hashtags : list jsstring;
  smartKeywords : list jsstring;
  pool : list jsstring;
  titleRank : option Z;
  ranks : list RankEntry;
  bestKeyword : option jsstring;
  bestRank : option Z;
  otherGoodKeywords : list RankEntry;
  finalKeyword : option jsstring;
  searchVolume : option VolumeSummary
}.

(** Everything the program does to the outside, in order: the requests
    it sends, each with the answer it got, and the lines it logs. *)
Inductive Event :=
| EvSearch (req : SearchRequest) (res : JsError + SearchData)
| EvAds (req : AdsRequest) (res : JsError + AdsData)
| EvLog (msg : jsstring).

(** Template-literal pieces. *)
Definition QUOTE : jsstring := [34%N].

Definition numToString (n : Z) : jsstring :=
  utf16 (DecimalString.NilZero.string_of_int (Z.to_int n)).

Fixpoint Array_join (xs : list jsstring) (sep : jsstring) : jsstring :=
  match xs with
  | [] => []
  | [x] => x
  | x :: rest => x ++ sep ++ Array_join rest sep
  end.

Definition formatAxiosError (err : JsError) : jsstring :=
  match err with
  | AxiosError msg status data =>
    if String_eqb msg (utf16 "Network Error") then
      utf16 "네트워크 에러: API 서버에 연결할 수 없거나 CORS 차단이 발생했습니다."
    else if match status with Some 500%Z => true | _ => false end then
      utf16 "서버 내부 오류(500): " ++ msg
      ++ utf16 ". API키 설정이나 대상 서버 상태를 확인하세요. "
      ++ match data with
         | Some json => String_slice json 0 100
         | None => []
         end
    else
      msg ++ match status with
             | Some s =>
               if (s =? 0)%Z then []
               else utf16 " (HTTP " ++ numToString s ++ utf16 ")"
             | None => []
             end
  | OtherError text => text
  end.

(** ** The effectful part: rank probing, volume lookup, orchestration *)

Section Pipeline.
(** The outside world: its state and how the two remote APIs and the
    clock answer in a given state. *)
Variable World : Type.
Variable searchApi : SearchRequest -> World -> (JsError + SearchData) * World.
Variable adsApi : AdsRequest -> World -> (JsError + AdsData) * World.
Variable dateNow : World -> Z * World.
(** Built-ins taken as given: [String.prototype.toLowerCase], the
    string-to-number conversion and the base64 HMAC-SHA256 of Web Crypto
    (key first). *)
Variable toLowerCase : jsstring -> jsstring.
Variable StringToNumber : jsstring -> float.
Variable hmacSha256Base64 : jsstring -> jsstring -> jsstring.

Record State := {
  world : World;
  trace : list Event
}.

(** An [async] computation: it runs on a state and ends by returning or
    by throwing; what it did before throwing stays done. *)
Definition M (A : Type) : Type := State -> (JsError + A) * State.

Definition ret {A} (a : A) : M A := fun st => (inr a, st).

Definition bind {A B} (m : M A) (k : A -> M B) : M B :=
  fun st =>
    match m st with
    | (inr a, st') => k a st'
    | (inl e, st') => (inl e, st')
    end.

Definition tryCatch {A} (body : M A) (handler : JsError -> M A) : M A :=
  fun st =>
    match body st with
    | (inr a, st') => (inr a, st')
    | (inl e, st') => handler e st'
    end.

Local Notation "x <- c ;; k" := (bind c (fun x => k))
  (at level 61, c at next level, right associativity).
Local Notation "c ;;; k" := (bind c (fun _ => k))
  (at level 61, right associativity).

Definition record (ev : Event) (st : State) : State :=
  {| world := world st; trace := trace st ++ [ev] |}.

(** The logging sink handed in by the caller; it stores the line. *)
Definition logSink (msg : jsstring) : M unit :=
  fun st => (inr tt, record (EvLog msg) st).

(** [onLog?.(msg)]. *)
Definition callOptional (onLog : option (jsstring -> M unit))
    (msg : jsstring) : M unit :=
  match onLog with
  | Some f => f msg
  | None => ret tt
  end.

Definition axiosGetSearch (req : SearchRequest) : M SearchData :=
  fun st =>
    let (res, w) := searchApi req (world st) in
    (res, {| world := w; trace := trace st ++ [EvSearch req res] |}).

Definition axiosGetAds (req : AdsRequest) : M AdsData :=
  fun st =>
    let (res, w) := adsApi req (world st) in
    (res, {| world := w; trace := trace st ++ [EvAds req res] |}).

Definition DateNow : M Z :=
  fun st =>
    let (t, w) := dateNow (world st) in
    (inr t, {| world := w; trace := trace st |}).

(** *** 6. Blog rank *)

Definition MAX_RESULTS : Z := 100.
Definition PAGE_SIZE : Z := 10.

Definition orEmpty (s : option jsstring) : jsstring :=
  match s with Some x => x | None => [] end.

Definition itemMatches (urlPattern : jsstring) (item : SearchItem) : bool :=
  let link := orEmpty (link item) ++ orEmpty (bloggerlink item) in
  String_includes (toLowerCase link) (toLowerCase urlPattern).

(** The loop over the items of one page. *)
Inductive Scan := Found (rank : Z) | NotFound (rank : Z).

Fixpoint scanItems (urlPattern : jsstring) (rank : Z)
    (items : list SearchItem) : Scan :=
  match items with
  | [] => NotFound rank
  | item :: rest =>
    let rank := (rank + 1)%Z in
    if itemMatches urlPattern item then Found rank
    else scanItems urlPattern rank rest
  end.

(** The loop over [start]; [fuel] bounds the number of iterations and is
    never exhausted from [S (Z.to_nat MAX_RESULTS)]. *)
Fixpoint pageLoop (fuel : nat) (keyword urlPattern : jsstring)
    (config : Config) (start rank : Z) : M (option Z) :=
  match fuel with
  | O => ret None
  | S fuel' =>
    if (start <=? MAX_RESULTS)%Z then
      response <- axiosGetSearch
        {| query := keyword; display := PAGE_SIZE; start := start;
           X_Naver_Client_Id := clientId (naverSearch config);
           X_Naver_Client_Secret := clientSecret (naverSearch config) |} ;;
      let items := match items response with Some l => l | None => [] end in
      match scanItems urlPattern rank items with
      | Found r => ret (Some r)
      | NotFound rank' =>
        if (Z.of_nat (length items) <? PAGE_SIZE)%Z then ret None
        else pageLoop fuel' keyword urlPattern config
               (start + PAGE_SIZE)%Z rank'
      end
    else ret None
  end.

Definition getBlogRank (keyword blogId : jsstring) (config : Config)
    (onLog : option (jsstring -> M unit)) : M (option Z) :=
  let urlPattern := utf16 "blog.naver.com/" ++ blogId in
  tryCatch
    (pageLoop (S (Z.to_nat MAX_RESULTS)) keyword urlPattern config 1 0)
    (fun err =>
       callOptional onLog
         (utf16 "[순위 조회 오류] " ++ QUOTE ++ keyword ++ QUOTE
          ++ utf16 ": " ++ formatAxiosError err) ;;;
       ret None).

(** *** 7-8. Search volume *)

Definition makeAdsSignature (timestamp : Z)
    (method path secretKey : jsstring) : jsstring :=
  hmacSha256Base64 secretKey
    (numToString timestamp ++ utf16 "." ++ method ++ utf16 "." ++ path).

Definition removeSpaces (s : jsstring) : jsstring :=
  filter (fun c => negb (isSpace c)) s.

Definition isEmptyString (s : jsstring) : bool :=
  match s with [] => true | _ => false end.

Definition getSearchVolume (keyword : jsstring) (config : Config)
    (onLog : option (jsstring -> M unit)) : M (option SearchVolumeEntry) :=
  let path := utf16 "/keywordstool" in
  let method := utf16 "GET" in
  timestamp <- DateNow ;;
  if isEmptyString (licenseKey (searchAds config))
     || isEmptyString (secretKey (searchAds config))
     || isEmptyString (customerId (searchAds config))
  then
    callOptional onLog
      (utf16 "[검색량 조회 스킵] API 설정이 불완전합니다.") ;;;
    ret None
  else
    tryCatch
      (let signature :=
         makeAdsSignature timestamp method path
           (secretKey (searchAds config)) in
       response <- axiosGetAds
         {| hintKeywords := keyword;
            X_Timestamp := numToString timestamp;
            X_API_KEY := licenseKey (searchAds config);
            X_Customer := customerId (searchAds config);
            X_Signature := signature |} ;;
       let keywordList :=
         match keywordList response with Some l => l | None => [] end in
       match keywordList with
       | [] =>
         callOptional onLog
           (utf16 "[공지] " ++ QUOTE ++ keyword ++ QUOTE
            ++ utf16 " 관련 검색 데이터가 광고 API에 존재하지 않습니다.") ;;;
         ret None
       | first :: _ =>
         let found :=
           match
             find (fun k =>
                     match relKeyword k with
                     | Some rk =>
                       String_eqb rk keyword
                       || String_eqb (removeSpaces rk) (removeSpaces keyword)
                     | None => false
                     end) keywordList
           with
           | Some k => k
           | None => first
           end in
         let pc := parseVolume StringToNumber (monthlyPcQcCnt found) in
         let mobile := parseVolume StringToNumber (monthlyMobileQcCnt found) in
         ret (Some {| sv_keyword :=
                        match relKeyword found with
                        | Some rk => rk
                        | None => keyword
                        end;
                      sv_monthlyPcQcCnt := pc;
                      sv_monthlyMobileQcCnt := mobile;
                      sv_totalVolume := (pc + mobile)%float |})
       end)
      (fun err =>
         callOptional onLog
           (utf16 "[검색량 조회 오류] " ++ QUOTE ++ keyword ++ QUOTE
            ++ utf16 ": " ++ formatAxiosError err) ;;;
         ret None).

(** *** 9. The whole analysis *)

Definition isRanked (r : RankEntry) : bool :=
  match rank r with Some _ => true | None => false end.

(** [r.rank!] in arithmetic and comparisons ([null] counts as 0). *)
Definition rankNum (r : RankEntry) : Z :=
  match rank r with Some n => n | None => 0%Z end.

Definition byRank (a b : RankEntry) : Z := (rankNum a - rankNum b)%Z.

Definition rankToString (r : option Z) : jsstring :=
  match r with Some n => numToString n | None => utf16 "null" end.

(** The [for (const keyword of pool)] loop of step 2. *)
Fixpoint probePool (blogId : jsstring) (config : Config)
    (onLog : jsstring -> M unit) (pool : list jsstring)
    (ranks : list RankEntry) : M (list RankEntry) :=
  match pool with
  | [] => ret ranks
  | keyword :: rest =>
    onLog (QUOTE ++ keyword ++ QUOTE ++ utf16 " 순위 조회 중...") ;;;
    rank <- getBlogRank keyword blogId config (Some onLog) ;;
    let ranks := ranks ++ [{| keyword := keyword; rank := rank |}] in
    onLog (match rank with
           | Some r =>
             QUOTE ++ keyword ++ QUOTE ++ utf16 " 블로그 순위: "
             ++ numToString r ++ utf16 "위"
           | None => QUOTE ++ keyword ++ QUOTE ++ utf16 " 100위 이내 없음"
           end) ;;;
    probePool blogId config onLog rest ranks
  end.

Definition analyzeBlogPosts (title content blogId : jsstring)
    (config : Config) (onLog : jsstring -> M unit)
    : M AnalysisFinalResult :=
  let hashtags := extractHashtags content in
  onLog (utf16 "식별된 해시태그: "
         ++ match hashtags with
            | [] => utf16 "없음"
            | _ => Array_join hashtags (utf16 ", ")
            end) ;;;
  let smartKeywords := extractSmartKeywords title content hashtags in
  onLog (utf16 "스마트 키워드 추출 완료: "
         ++ Array_join smartKeywords (utf16 ", ")) ;;;
  let pool := mergeKeywordPool hashtags smartKeywords in
  onLog (utf16 "통합 검색 후보군 생성 완료 (총 "
         ++ numToString (Z.of_nat (length pool))
         ++ utf16 "개 키워드)") ;;;
  titleRank <- getBlogRank title blogId config (Some onLog) ;;
  onLog (match titleRank with
         | Some r =>
           if (r =? 1)%Z then
             utf16 "> [확인] 제목 전체 검색 결과 1위로 정상 노출 중입니다."
           else
             utf16 "> [확인] 제목 전체 검색 결과 " ++ numToString r
             ++ utf16 "위 노출 중입니다."
         | None => utf16 "> [확인] 제목 전체로 검색 시 100위 이내 미노출."
         end) ;;;
  onLog (utf16 "전수 조사를 시작합니다") ;;;
  ranks <- probePool blogId config onLog pool [] ;;
  let ranked := Array_sort byRank (filter isRanked ranks) in
  let best := hd_error ranked in
  let bestKeyword := option_map keyword best in
  let bestRank := match best with Some b => rank b | None => None end in
  match bestKeyword with
  | Some ((_ :: _) as k) =>
    onLog (utf16 "베스트 키워드 선정: " ++ QUOTE ++ k ++ QUOTE
           ++ utf16 " (" ++ rankToString bestRank ++ utf16 "위)")
  | _ => ret tt
  end ;;;
  let otherGoodKeywords :=
    filter (fun r =>
              match bestKeyword with
              | Some k => negb (String_eqb (keyword r) k)
              | None => true
              end && (rankNum r <=? 10)%Z) ranked in
  match otherGoodKeywords with
  | [] => ret tt
  | _ =>
    onLog (utf16 "기타 우수 키워드 발견: "
           ++ Array_join
                (map (fun r => QUOTE ++ keyword r ++ QUOTE ++ utf16 "("
                               ++ rankToString (rank r) ++ utf16 "위)")
                     otherGoodKeywords)
                (utf16 ", "))
  end ;;;
  let finalKeyword := bestKeyword in
  onLog (utf16 "최종 선정 키워드: "
         ++ match finalKeyword with
            | Some k => k
            | None => utf16 "없음"
            end) ;;;
  ret {| hashtags := hashtags;
         smartKeywords := smartKeywords;
         pool := pool;
         titleRank := titleRank;
         ranks := ranks;
         bestKeyword := bestKeyword;
         bestRank := bestRank;
         otherGoodKeywords := otherGoodKeywords;
         finalKeyword := finalKeyword;
         searchVolume := None |}.

End Pipeline.

(** ** Saving results ([sheetSaver.ts]) *)

(** A row of the sheet; the keys of the source are 날짜, 블로그제목,
    베스트키워드, 베스트순위 and 등급, in this order. *)
Record SheetRow := {
  row_date : jsstring;
  row_title : jsstring;
  row_keyword : jsstring;
  row_rank : jsstring;
  row_grade : Grade
}.

(** [resultToRow]; [isoNow] is what [new Date().toISOString()] reads. *)
Definition resultToRow (isoNow title : jsstring)
    (result : AnalysisFinalResult) : SheetRow :=
  {| row_date := String_slice isoNow 0 10;
     row_title := title;
     row_keyword := match finalKeyword result with
                    | Some k => k
                    | None => utf16 "-"
                    end;
     row_rank := match bestRank result with
                 | Some r => numToString r ++ utf16 "위"
                 | None => utf16 "-"
                 end;
     row_grade := calcGrade (bestRank result) |}.

Record StoredAnalysis := {
  sa_title : jsstring;
  sa_blogId : jsstring;
  sa_timestamp : jsstring;
  sa_result : AnalysisFinalResult;
  sa_row : SheetRow
}.

(** *** CSV download *)

(** [Object.keys(row)] and the cells [String(row[h])] in key order. *)
Definition COLUMNS : list jsstring :=
  map utf16 ["날짜"; "블로그제목"; "베스트키워드"; "베스트순위"; "등급"]%string.

Definition rowCells (row : SheetRow) : list jsstring :=
  [row_date row; row_title row; row_keyword row; row_rank row;
   gradeText (row_grade row)].

(** The [replace] of the cell: every quote character is doubled. *)
Definition doubleQuotes (s : jsstring) : jsstring :=
  flat_map (fun c => if (c =? 34)%N then [34%N; 34%N] else [c]) s.

Definition csvCell (s : jsstring) : jsstring :=
  QUOTE ++ doubleQuotes s ++ QUOTE.

Definition COMMA : jsstring := [44%N].
Definition NEWLINE : jsstring := [10%N].
Definition BOM : jsstring := [0xFEFF%N].

Definition csvContent (rows : list SheetRow) : jsstring :=
  let headers := match rows with
                 | [] => []
                 | _ :: _ => COLUMNS
                 end in
  Array_join
    (Array_join headers COMMA
     :: map (fun row => Array_join (map csvCell (rowCells row)) COMMA) rows)
    NEWLINE.

(** What [downloadAsCsv] hands to the browser and to the log. *)
Record CsvDownload := {
  csv_fileName : jsstring;
  csv_blob : jsstring;
  csv_log : list jsstring
}.

Definition downloadAsCsv (isoNow : jsstring) (rows : list SheetRow)
  : CsvDownload :=
  {| csv_fileName := utf16 "blog_analysis_" ++ String_slice isoNow 0 10
                     ++ utf16 ".csv";
     csv_blob := BOM ++ csvContent rows;
     csv_log := [utf16 "CSV 파일 생성 중..."; utf16 "CSV 파일 다운로드 완료!"] |}.

(** *** Dashboard counts ([App.tsx]) *)

Record GradeCounts := {
  count_S : Z;
  count_A : Z;
  count_B : Z;
  count_C : Z;
  count_unexposed : Z;
  count_total : Z
}.

(** [counts[grade]++]. *)
Definition incrementGrade (counts : GradeCounts) (g : Grade) : GradeCounts :=
  match g with
  | GradeS =>
    {| count_S := count_S counts + 1; count_A := count_A counts;
       count_B := count_B counts; count_C := count_C counts;
       count_unexposed := count_unexposed counts;
       count_total := count_total counts |}
  | GradeA =>
    {| count_S := count_S counts; count_A := count_A counts + 1;
       count_B := count_B counts; count_C := count_C counts;
       count_unexposed := count_unexposed counts;
       count_total := count_total counts |}
  | GradeB =>
    {| count_S := count_S counts; count_A := count_A counts;
       count_B := count_B counts + 1; count_C := count_C counts;
       count_unexposed := count_unexposed counts;
       count_total := count_total counts |}
  | GradeC =>
    {| count_S := count_S counts; count_A := count_A counts;
       count_B := count_B counts; count_C := count_C counts + 1;
       count_unexposed := count_unexposed counts;
       count_total := count_total counts |}
  | GradeUnexposed =>
    {| count_S := count_S counts; count_A := count_A counts;
       count_B := count_B counts; count_C := count_C counts;
       count_unexposed := count_unexposed counts + 1;
       count_total := count_total counts |}
  end%Z.

Definition countGrades (entries : list StoredAnalysis) : GradeCounts :=
  fold_left
    (fun counts e => incrementGrade counts (calcGrade (bestRank (sa_result e))))
    entries
    {| count_S := 0; count_A := 0; count_B := 0; count_C := 0;
       count_unexposed := 0; count_total := Z.of_nat (length entries) |}.

(** *** Sending to the sheet and keeping results in local storage *)

(** A thrown value as [err?.message ?? err] prints it. *)
Record Thrown := { thrownText : jsstring }.

Inductive SheetType := TypeAnalysis | TypeLog.

Definition sheetTypeText (t : SheetType) : jsstring :=
  match t with
  | TypeAnalysis => utf16 "analysis"
  | TypeLog => utf16 "log"
  end.

Definition tabNameOf (t : SheetType) : jsstring :=
  match t with
  | TypeAnalysis => utf16 "분석기록"
  | TypeLog => utf16 "로그"
  end.

(** The [fetch] call of [saveToGoogleSheet]. *)
Record FetchRequest := {
  fetch_url : jsstring;
  fetch_method : jsstring;
  fetch_contentType : jsstring;
  fetch_mode : jsstring;
  fetch_body : jsstring
}.

(** What [JSON.stringify] makes of [data] inside the payload: its JSON
    text, nothing ([data] is undefined and the key is left out), or an
    exception (a cyclic value). *)
Inductive DataJson :=
| JsonText (json : jsstring)
| JsonUndefined
| JsonThrows (err : Thrown).

(** [JSON.stringify({ type, tabName, data })], given the part for
    [data]. *)
Definition payloadJson (t : SheetType) (dataPart : jsstring) : jsstring :=
  utf16 "{" ++ QUOTE ++ utf16 "type" ++ QUOTE ++ utf16 ":"
  ++ QUOTE ++ sheetTypeText t ++ QUOTE
  ++ utf16 "," ++ QUOTE ++ utf16 "tabName" ++ QUOTE ++ utf16 ":"
  ++ QUOTE ++ tabNameOf t ++ QUOTE
  ++ dataPart
  ++ utf16 "}".

Definition dataMember (json : jsstring) : jsstring :=
  utf16 "," ++ QUOTE ++ utf16 "data" ++ QUOTE ++ utf16 ":" ++ json.

(** What [JSON.parse] makes of a stored text: a syntax error, an array of
    entries, or a value that is no array (on which [push] throws the given
    TypeError). *)
Inductive Parsed (Entry : Type) :=
| ParseError
| ParsedArray (entries : list Entry)
| ParsedOther (pushError : Thrown).
Arguments ParseError {Entry}.
Arguments ParsedArray {Entry} entries.
Arguments ParsedOther {Entry} pushError.

(** What [loadResultsFromLocal] returns: typed as an array, it is whatever
    [JSON.parse] gave. *)
Inductive Loaded (Entry : Type) :=
| LoadedArray (entries : list Entry)
| LoadedOther (pushError : Thrown).
Arguments LoadedArray {Entry} entries.
Arguments LoadedOther {Entry} pushError.

Section SheetSaver.
(** The network behind [fetch]. *)
Variable Net : Type.
Variable fetchApi : FetchRequest -> Net -> option Thrown * Net.
(** The entries kept in local storage ([StoredAnalysis]; the storage
    functions never look inside) with the JSON built-ins on them, and
    the storage quota: [setItem] throws for a text it cannot hold. *)
Variable Entry : Type.
Variable stringifyEntries : list Entry -> jsstring.
Variable parseEntries : jsstring -> Parsed Entry.
Variable setItemError : jsstring -> option Thrown.

(** The browser as these functions see it: the network, the value under
    the key [blog_analysis_results], the requests sent and the lines
    given to [onLog]. *)
Record Browser := {
  net : Net;
  stored : option jsstring;
  sent : list FetchRequest;
  logged_lines : list jsstring
}.

Definition onLog' (msg : jsstring) (b : Browser) : Browser :=
  {| net := net b; stored := stored b; sent := sent b;
     logged_lines := logged_lines b ++ [msg] |}.

Definition logIfAnalysis (type : SheetType) (msg : jsstring)
    (b : Browser) : Browser :=
  match type with
  | TypeAnalysis => onLog' msg b
  | TypeLog => b
  end.

Definition sheetError (err : Thrown) : jsstring :=
  utf16 "구글 시트 저장 오류: " ++ thrownText err.

Definition sheetRequest (url : jsstring) (type : SheetType)
    (dataPart : jsstring) : FetchRequest :=
  {| fetch_url := url;
     fetch_method := utf16 "POST";
     fetch_contentType := utf16 "text/plain;charset=utf-8";
     fetch_mode := utf16 "no-cors";
     fetch_body := payloadJson type dataPart |}.

Definition postPayload (url : jsstring) (type : SheetType)
    (dataPart : jsstring) (b : Browser) : bool * Browser :=
  let req := sheetRequest url type dataPart in
  let (failure, n) := fetchApi req (net b) in
  let b1 := {| net := n; stored := stored b; sent := sent b ++ [req];
               logged_lines := logged_lines b |} in
  match failure with
  | None =>
    (true, logIfAnalysis type (utf16 "구글 스프레드시트 요청 전송 완료") b1)
  | Some err => (false, logIfAnalysis type (sheetError err) b1)
  end.

Definition saveToGoogleSheet (data : DataJson)
    (appsScriptUrl : option jsstring) (type : SheetType) (b : Browser)
  : bool * Browser :=
  match appsScriptUrl with
  | None => (false, b)
  | Some [] => (false, b)
  | Some url =>
    match data with
    | JsonThrows err => (false, logIfAnalysis type (sheetError err) b)
    | JsonUndefined => postPayload url type [] b
    | JsonText json => postPayload url type (dataMember json) b
    end
  end.

Definition loadResultsFromLocal (b : Browser) : Loaded Entry :=
  match stored b with
  | None => LoadedArray []
  | Some [] => LoadedArray []
  | Some raw =>
    match parseEntries raw with
    | ParseError => LoadedArray []
    | ParsedArray l => LoadedArray l
    | ParsedOther err => LoadedOther err
    end
  end.

Definition saveResultToLocal (entry : Entry) (b : Browser) : Browser :=
  match loadResultsFromLocal b with
  | LoadedOther err =>
    onLog' (utf16 "로컬 저장 오류: " ++ thrownText err) b
  | LoadedArray existing =>
    let existing := existing ++ [entry] in
    let text := stringifyEntries existing in
    match setItemError text with
    | Some err => onLog' (utf16 "로컬 저장 오류: " ++ thrownText err) b
    | None =>
      onLog'
        (utf16 "분석 결과 로컬 저장 완료 (누적 "
         ++ numToString (Z.of_nat (length existing)) ++ utf16 "건)")
        {| net := net b; stored := Some text; sent := sent b;
           logged_lines := logged_lines b |}
    end
  end.

Definition clearLocalResults (b : Browser) : Browser :=
  {| net := net b; stored := None; sent := sent b;
     logged_lines := logged_lines b |}.
End SheetSaver.

(** ** Instances used to run the program on samples *)

(** Leading white space removed. *)
Fixpoint dropSpaces (s : jsstring) : jsstring :=
  match s with
  | c :: s' => if isSpace c then dropSpaces s' else s
  | [] => []
  end.

Definition trim (s : jsstring) : jsstring :=
  rev (dropSpaces (rev (dropSpaces s))).

Definition digitsValue (s : jsstring) : Z :=
  fold_left (fun acc c => (acc * 10 + Z.of_N (c - 48))%Z) s 0%Z.

(** A string-to-number conversion for the literals of the samples: an
    unsigned decimal integer, possibly surrounded by white space, or the
    empty string (zero); every other string is NaN here. *)
Definition decimalStringToNumber (s : jsstring) : float :=
  match trim s with
  | [] => 0%float
  | t =>
    if forallb isDigit t
    then SF2Prim (binary_normalize prec emax (digitsValue t) 0 false)
    else nan
  end.

(** ** Reference definitions, following the wording of the specification *)

(** Hashtag tokens in scan order: every # that is followed by at least
    one tag character yields the longest run of tag characters behind
    it. *)
Fixpoint hashtagTokens (s : jsstring) : list jsstring :=
  match s with
  | [] => []
  | c :: rest =>
    match takeWhile isTagChar rest with
    | (_ :: _) as body =>
      if (c =? 35)%N then body :: hashtagTokens rest else hashtagTokens rest
    | [] => hashtagTokens rest
    end
  end.

(** Deduplication that keeps the first occurrence of each string. *)
Fixpoint dedupFirst (xs : list jsstring) : list jsstring :=
  match xs with
  | [] => []
  | x :: rest =>
    x :: filter (fun y => negb (String_eqb x y)) (dedupFirst rest)
  end.

(** Hashtags written back as text, one [#tag] per token. *)
Definition renderHashtags (tags : list jsstring) : jsstring :=
  concat (map (fun t => 35%N :: t ++ SPACE) tags).

(** The words [extractNouns] counts: the Hangul runs of the text after
    particle stripping, without those shorter than two code units and
    without stop words. *)
Definition nounWords (text : jsstring) : list jsstring :=
  filter (fun w => negb ((length w <? 2)%nat || Array_includes STOPWORDS w))
    (map stripParticles (matchHangulRuns 0 text)).

(** How often [w] occurs among the counted words of [text]. *)
Definition frequency (text w : jsstring) : Z :=
  Z.of_nat (count_occ (list_eq_dec N.eq_dec) (nounWords text) w).

(** [p] can be stripped from [w]: [w] ends with [p] and at least two code
    units remain. *)
Definition strippable (w p : jsstring) : Prop :=
  exists r, w = r ++ p /\ 2 <= length r.

(** What follows a longest run does not continue it. *)
Definition stopsRun (p : jschar -> bool) (post : jsstring) : Prop :=
  match post with
  | [] => True
  | c :: _ => p c = false
  end.

(** [t] is a hashtag of [content]: a # followed by the non-empty run [t]
    of tag characters, which the next code unit does not continue. *)
Definition hashtagOccurs (content t : jsstring) : Prop :=
  exists pre post,
    content = pre ++ 35%N :: t ++ post /\
    t <> [] /\ forallb isTagChar t = true /\ stopsRun isTagChar post.

(** One more occurrence of [w] in a frequency map. *)
Definition getOr0 (m : Map Z) (k : jsstring) : Z :=
  match Map_get m k with Some n => n | None => 0%Z end.

Definition bump (m : Map Z) (w : jsstring) : Map Z :=
  Map_set m w (getOr0 m w + 1)%Z.

(** ** Reading a trace *)

Definition Call : Type := SearchRequest * (JsError + SearchData).

Definition searchCalls (tr : list Event) : list Call :=
  flat_map (fun ev => match ev with
                      | EvSearch req res => [(req, res)]
                      | _ => []
                      end) tr.

Definition adsCalls (tr : list Event) : list AdsRequest :=
  flat_map (fun ev => match ev with
                      | EvAds req _ => [req]
                      | _ => []
                      end) tr.

Definition logLines (tr : list Event) : list jsstring :=
  flat_map (fun ev => match ev with
                      | EvLog msg => [msg]
                      | _ => []
                      end) tr.

(** The items of one answer ([response.data.items ?? []]; none when the
    call failed). *)
Definition pageItems (res : JsError + SearchData) : list SearchItem :=
  match res with
  | inr data => match items data with Some l => l | None => [] end
  | inl _ => []
  end.

Definition callItems (calls : list Call) : list SearchItem :=
  flat_map (fun c => pageItems (snd c)) calls.

(** All result items a run has looked at, in order. *)
Definition scannedItems (tr : list Event) : list SearchItem :=
  callItems (searchCalls tr).

Definition searchEvents (calls : list Call) : list Event :=
  map (fun c => EvSearch (fst c) (snd c)) calls.

(** The request [getBlogRank] sends for the page that starts at [start]. *)
Definition pageRequest (keyword : jsstring) (config : Config) (start : Z)
  : SearchRequest :=
  {| query := keyword; display := 10; start := start;
     X_Naver_Client_Id := clientId (naverSearch config);
     X_Naver_Client_Secret := clientSecret (naverSearch config) |}.

Definition urlPatternOf (blogId : jsstring) : jsstring :=
  utf16 "blog.naver.com/" ++ blogId.

(** The line [getBlogRank] logs when the search call fails. *)
Definition rankErrorLine (keyword : jsstring) (err : JsError) : jsstring :=
  utf16 "[순위 조회 오류] " ++ QUOTE ++ keyword ++ QUOTE
  ++ utf16 ": " ++ formatAxiosError err.

Section Answers.
Context {World : Type}.
Variable searchApi : SearchRequest -> World -> (JsError + SearchData) * World.

(** [calls] are the answers of the API to consecutive requests, from
    world [w] to world [w']. *)
Inductive Answers : World -> list Call -> World -> Prop :=
| Answers_nil w : Answers w [] w
| Answers_cons w req res w1 calls w' :
    searchApi req w = (res, w1) ->
    Answers w1 calls w' ->
    Answers w ((req, res) :: calls) w'.
End Answers.

(** A run of the page loop from [start] with counter [rank]: the calls it
    makes and how it ends. *)
Section PageRun.
Variable toLowerCase : jsstring -> jsstring.
Variables (keyword urlPattern : jsstring) (config : Config).

Inductive PageRun : Z -> Z -> list Call -> JsError + option Z -> Prop :=
| PageRun_depth start rank :
    (100 < start)%Z ->
    PageRun start rank [] (inr None)
| PageRun_error start rank e :
    (start <= 100)%Z ->
    PageRun start rank [(pageRequest keyword config start, inl e)] (inl e)
| PageRun_found start rank data n :
    (start <= 100)%Z ->
    scanItems toLowerCase urlPattern rank (pageItems (inr data)) = Found n ->
    PageRun start rank [(pageRequest keyword config start, inr data)]
      (inr (Some n))
| PageRun_short start rank data rank' :
    (start <= 100)%Z ->
    scanItems toLowerCase urlPattern rank (pageItems (inr data))
    = NotFound rank' ->
    (Z.of_nat (length (pageItems (inr data))) < 10)%Z ->
    PageRun start rank [(pageRequest keyword config start, inr data)]
      (inr None)
| PageRun_next start rank data rank' calls res :
    (start <= 100)%Z ->
    scanItems toLowerCase urlPattern rank (pageItems (inr data))
    = NotFound rank' ->
    (10 <= Z.of_nat (length (pageItems (inr data))))%Z ->
    PageRun (start + 10) rank' calls res ->
    PageRun start rank
      ((pageRequest keyword config start, inr data) :: calls) res.
End PageRun.

(** ** A scripted outside world for sample runs *)

(** The world is the list of answers the search API will still give; when
    the script is over the network fails. *)
Definition Script : Type := list (JsError + SearchData).

Definition networkError : JsError :=
  AxiosError (utf16 "Network Error") None None.

Definition scriptedSearch (req : SearchRequest) (w : Script)
  : (JsError + SearchData) * Script :=
  match w with
  | res :: w' => (res, w')
  | [] => (inl networkError, [])
  end.

Definition scriptedAds (req : AdsRequest) (w : Script)
  : (JsError + AdsData) * Script :=
  (inl networkError, w).

Definition scriptedClock (w : Script) : Z * Script := (0%Z, w).

(** Lower-casing of the Latin capitals, the only letters of the URLs below
    that have a case. *)
Definition asciiLower (s : jsstring) : jsstring :=
  map (fun c => if isUpper c then (c + 32)%N else c) s.

Definition noHmac (key msg : jsstring) : jsstring := [].

(** [getBlogRank] is called with the caller's sink or with none. *)
Definition sinkOption (World : Type) (logging : bool)
  : option (jsstring -> M World unit) :=
  if logging then Some (logSink World) else None.

(** [r] is the 1-based position of the first item of [l] that satisfies
    [p], or null when there is none. *)
Definition firstMatchRank (p : SearchItem -> bool) (l : list SearchItem)
    (r : option Z) : Prop :=
  (r = None /\ Forall (fun it => p it = false) l)
  \/ exists l1 it l2,
       l = l1 ++ it :: l2 /\ Forall (fun x => p x = false) l1 /\
       p it = true /\ r = Some (Z.of_nat (length l1) + 1)%Z.

(** The match test in the wording of the specification: the link, or the
    owner link, contains the pattern without regard to case. *)
Definition linkOrOwnerContains (toLowerCase : jsstring -> jsstring)
    (urlPattern : jsstring) (item : SearchItem) : bool :=
  String_includes (toLowerCase (orEmpty (link item))) (toLowerCase urlPattern)
  || String_includes (toLowerCase (orEmpty (bloggerlink item)))
       (toLowerCase urlPattern).

Definition sampleConfig : Config :=
  {| naverSearch := {| clientId := utf16 "id"; clientSecret := utf16 "secret" |};
     searchAds := {| licenseKey := []; secretKey := []; customerId := [] |} |}.

Definition itemOf (l : string) : SearchItem :=
  {| link := Some (utf16 l); bloggerlink := None |}.

Definition otherPost : SearchItem := itemOf "https://blog.naver.com/other/1".
Definition ownPost : SearchItem := itemOf "https://Blog.Naver.com/MyBlog/7".

Definition pageOf (l : list SearchItem) : JsError + SearchData :=
  inr {| items := Some l |}.

(** Ten foreign posts, then the own post as first item of page two. *)
Definition secondPageScript : Script :=
  [pageOf (repeat otherPost 10); pageOf [ownPost; otherPost]].

(** An item whose link ends where the pattern begins and whose owner link
    carries the rest. *)
Definition straddlingItem : SearchItem :=
  {| link := Some (utf16 "https://blog.naver");
     bloggerlink := Some (utf16 ".com/myblog") |}.

Definition initial (w : Script) : State Script :=
  {| world := w; trace := [] |}.

(** What the error handler of [getBlogRank] adds to the trace. *)
Definition errorLog (logging : bool) (keyword : jsstring)
    (res : JsError + option Z) : list Event :=
  match res with
  | inl e => if logging then [EvLog (rankErrorLine keyword e)] else []
  | inr _ => []
  end.

(** What [getBlogRank] returns for the outcome of its [try] block. *)
Definition rankOf (res : JsError + option Z) : option Z :=
  match res with
  | inr r => r
  | inl _ => None
  end.

(** ** Best-keyword selection, as functions of the ranks list *)

Definition rankedEntries (ranks : list RankEntry) : list RankEntry :=
  Array_sort byRank (filter isRanked ranks).

Definition selectBest (ranks : list RankEntry) : option RankEntry :=
  hd_error (rankedEntries ranks).

Definition bestKeywordOf (ranks : list RankEntry) : option jsstring :=
  option_map keyword (selectBest ranks).

Definition bestRankOf (ranks : list RankEntry) : option Z :=
  match selectBest ranks with
  | Some b => rank b
  | None => None
  end.

(** [r.keyword !== bestKeyword && r.rank! <= 10]. *)
Definition isOtherGood (best : option jsstring) (r : RankEntry) : bool :=
  match best with
  | Some k => negb (String_eqb (keyword r) k)
  | None => true
  end && (rankNum r <=? 10)%Z.

Definition otherGoodOf (ranks : list RankEntry) : list RankEntry :=
  filter (isOtherGood (bestKeywordOf ranks)) (rankedEntries ranks).

(** The result object for given probe outcomes. *)
Definition resultOf (title content : jsstring) (titleRank : option Z)
    (ranks : list RankEntry) : AnalysisFinalResult :=
  let hashtags := extractHashtags content in
  let smartKeywords := extractSmartKeywords title content hashtags in
  {| hashtags := hashtags;
     smartKeywords := smartKeywords;
     pool := mergeKeywordPool hashtags smartKeywords;
     titleRank := titleRank;
     ranks := ranks;
     bestKeyword := bestKeywordOf ranks;
     bestRank := bestRankOf ranks;
     otherGoodKeywords := otherGoodOf ranks;
     finalKeyword := bestKeywordOf ranks;
     searchVolume := None |}.

(** [st'] continues [st] with events among which there is no call to the
    ads API. *)
Definition continuesWithoutAds {World : Type} (st st' : State World) : Prop :=
  exists tr, trace World st' = trace World st ++ tr /\ adsCalls tr = [].

(** A step that only logs: it returns and calls no API. *)
Definition quietUnit {World : Type} (m : M World unit) : Prop :=
  forall st, exists st', m st = (inr tt, st') /\ continuesWithoutAds st st'.

(** The ranks list of the specification's selection example. *)
Definition exampleRanks : list RankEntry :=
  [{| keyword := utf16 "a"; rank := None |};
   {| keyword := utf16 "b"; rank := Some 7%Z |};
   {| keyword := utf16 "c"; rank := Some 3%Z |}].

(** Two outside worlds for the post titled 맛집 (its pool is that one
    keyword): the title probe finds the blog first in one and not at all
    in the other; the probe for the pool keyword finds it second in
    both. *)
Definition titleFoundScript : Script :=
  [pageOf [ownPost]; pageOf [otherPost; ownPost]].


(** A world whose search API fails on the second call. *)
Definition failingScript : Script :=
  [pageOf (repeat otherPost 10); inl networkError].

(** Credentials for the ads API. *)
Definition adsConfig : Config :=
  {| naverSearch := {| clientId := utf16 "id"; clientSecret := utf16 "secret" |};
     searchAds := {| licenseKey := utf16 "license"; secretKey := utf16 "key";
                     customerId := utf16 "42" |} |}.

(** The post titled 강남 맛집 has the pool 강남, 맛집, 강남 맛집. In this world
    the title and the first keyword are not found, the second and the
    third keyword are both found at rank 2. *)
Definition tieScript : Script :=
  [pageOf [otherPost]; pageOf [otherPost];
   pageOf [otherPost; ownPost]; pageOf [otherPost; ownPost]].

(** The sum of the counts of a frequency map. *)
Definition sumCounts (m : Map Z) : Z :=
  fold_right Z.add 0%Z (map snd m).

(** The characters a title token is made of. *)
Definition isWordChar (c : jschar) : bool :=
  isHangul c || isLower c || isUpper c || isDigit c.

(** ** Reading a run of [getSearchVolume] *)

Definition credentialsComplete (config : Config) : bool :=
  negb (isEmptyString (licenseKey (searchAds config)))
  && negb (isEmptyString (secretKey (searchAds config)))
  && negb (isEmptyString (customerId (searchAds config))).

(** The request [getSearchVolume] sends at time [timestamp]. *)
Definition adsRequestOf (hmacSha256Base64 : jsstring -> jsstring -> jsstring)
    (keyword : jsstring) (config : Config) (timestamp : Z) : AdsRequest :=
  {| hintKeywords := keyword;
     X_Timestamp := numToString timestamp;
     X_API_KEY := licenseKey (searchAds config);
     X_Customer := customerId (searchAds config);
     X_Signature :=
       hmacSha256Base64 (secretKey (searchAds config))
         (numToString timestamp ++ utf16 ".GET./keywordstool") |}.

(** The test of [keywordList.find]: the related keyword equals the keyword,
    as it is or with all white space removed from both. *)
Definition keywordMatches (keyword : jsstring) (k : AdsKeyword) : bool :=
  match relKeyword k with
  | Some rk =>
    String_eqb rk keyword
    || String_eqb (removeSpaces rk) (removeSpaces keyword)
  | None => false
  end.

(** The entry returned for the list element [found]. *)
Definition volumeEntryOf (StringToNumber : jsstring -> float)
    (keyword : jsstring) (found : AdsKeyword) : SearchVolumeEntry :=
  {| sv_keyword := match relKeyword found with
                   | Some rk => rk
                   | None => keyword
                   end;
     sv_monthlyPcQcCnt := parseVolume StringToNumber (monthlyPcQcCnt found);
     sv_monthlyMobileQcCnt :=
       parseVolume StringToNumber (monthlyMobileQcCnt found);
     sv_totalVolume :=
       (parseVolume StringToNumber (monthlyPcQcCnt found)
        + parseVolume StringToNumber (monthlyMobileQcCnt found))%float |}.

Definition volumeSkipLine : jsstring :=
  utf16 "[검색량 조회 스킵] API 설정이 불완전합니다.".

Definition volumeNoDataLine (keyword : jsstring) : jsstring :=
  utf16 "[공지] " ++ QUOTE ++ keyword ++ QUOTE
  ++ utf16 " 관련 검색 데이터가 광고 API에 존재하지 않습니다.".

Definition volumeErrorLine (keyword : jsstring) (err : JsError) : jsstring :=
  utf16 "[검색량 조회 오류] " ++ QUOTE ++ keyword ++ QUOTE
  ++ utf16 ": " ++ formatAxiosError err.

(** The events of one logged line, when there is a sink. *)
Definition logged (logging : bool) (msg : jsstring) : list Event :=
  if logging then [EvLog msg] else [].

(** A world for the ads API: the clock shows 1700000000000 and the API
    gives the scripted answer. *)
Definition adsAnswer (answer : JsError + AdsData) (req : AdsRequest)
    (w : Script) : (JsError + AdsData) * Script :=
  (answer, w).

Definition fixedClock (w : Script) : Z * Script := (1700000000000%Z, w).

(** Two entries for the keyword 강남 맛집: the first equals it only when
    white space is ignored and has the volume marks for fewer than ten, the
    second equals it exactly. *)
Definition sampleKeywordList : list AdsKeyword :=
  [{| relKeyword := Some (utf16 "강남맛집");
      monthlyPcQcCnt := VString (utf16 "< 10");
      monthlyMobileQcCnt := VString (utf16 "< 10") |};
   {| relKeyword := Some (utf16 "강남 맛집");
      monthlyPcQcCnt := VNumber 120%float;
      monthlyMobileQcCnt := VString (utf16 "3400") |}].

(** ** Reading a run of the orchestrator *)

(** The requests of one rank probe that fetched [n] pages. *)
Definition probeRequests (keyword : jsstring) (config : Config) (n : nat)
  : list SearchRequest :=
  map (fun i => pageRequest keyword config (1 + 10 * Z.of_nat i)%Z) (seq 0 n).

(** [st'] continues [st] with events whose search calls are [calls],
    answered by the API one after the other from the world of [st] to the
    world of [st'], and without any call to the ads API. *)
Definition continuesWith {World : Type}
    (searchApi : SearchRequest -> World -> (JsError + SearchData) * World)
    (st st' : State World) (calls : list Call) : Prop :=
  exists tr,
    trace World st' = trace World st ++ tr /\
    searchCalls tr = calls /\ adsCalls tr = [] /\
    Answers searchApi (world World st) calls (world World st').

(** One probe for [keyword] made [calls] and returned [r]. *)
Definition probeOutcome (toLowerCase : jsstring -> jsstring)
    (blogId : jsstring) (config : Config) (keyword : jsstring)
    (r : option Z) (calls : list Call) : Prop :=
  exists res,
    PageRun toLowerCase keyword (urlPatternOf blogId) config 1 0 calls res /\
    r = rankOf res.

(** ** Reading the saved rows *)

(** The grade an entry counts for on the dashboard. *)
Definition gradeOf (e : StoredAnalysis) : Grade :=
  calcGrade (bestRank (sa_result e)).

Definition Grade_eqb (a b : Grade) : bool :=
  match a, b with
  | GradeS, GradeS | GradeA, GradeA | GradeB, GradeB | GradeC, GradeC
  | GradeUnexposed, GradeUnexposed => true
  | _, _ => false
  end.

(** How many of the entries have the grade [g]. *)
Definition entriesWith (g : Grade) (entries : list StoredAnalysis) : nat :=
  length (filter (fun e => Grade_eqb (gradeOf e) g) entries).

(** The characters a keyword of the pool is made of. *)
Definition isKeywordChar (c : jschar) : bool :=
  isTagChar c || (c =? 32)%N.

(** A reader of CSV text in the usual convention: records end at a line
    feed and cells at a comma; a cell that opens with a quote runs to its
    closing quote, and inside it two quotes stand for one quote character.
    A quote inside a bare cell, text behind a closing quote and a quoted
    cell left open are refused. *)
Inductive CsvState := CellStart | InBare | InQuoted | AfterQuote.

Fixpoint readCsvFrom (state : CsvState) (cell : jsstring)
    (record : list jsstring) (records : list (list jsstring)) (s : jsstring)
  : option (list (list jsstring)) :=
  match s with
  | [] =>
    match state with
    | InQuoted => None
    | _ => Some (records ++ [record ++ [cell]])
    end
  | c :: rest =>
    match state with
    | InQuoted =>
      if (c =? 34)%N then readCsvFrom AfterQuote cell record records rest
      else readCsvFrom InQuoted (cell ++ [c]) record records rest
    | AfterQuote =>
      if (c =? 34)%N
      then readCsvFrom InQuoted (cell ++ [34%N]) record records rest
      else if (c =? 44)%N
      then readCsvFrom CellStart [] (record ++ [cell]) records rest
      else if (c =? 10)%N
      then readCsvFrom CellStart [] [] (records ++ [record ++ [cell]]) rest
      else None
    | CellStart | InBare =>
      if (c =? 34)%N
      then match state with
           | CellStart => readCsvFrom InQuoted [] record records rest
           | _ => None
           end
      else if (c =? 44)%N
      then readCsvFrom CellStart [] (record ++ [cell]) records rest
      else if (c =? 10)%N
      then readCsvFrom CellStart [] [] (records ++ [record ++ [cell]]) rest
      else readCsvFrom InBare (cell ++ [c]) record records rest
    end
  end.

Definition readCsv (s : jsstring) : option (list (list jsstring)) :=
  readCsvFrom CellStart [] [] [] s.

(** A character that may stand in a bare cell. *)
Definition isBareChar (c : jschar) : bool :=
  negb ((c =? 34)%N || (c =? 44)%N || (c =? 10)%N).

(** ** Local storage samples *)

(** An entry codec for examples: an entry is one code unit and the stored
    text is the entries between brackets. *)
Definition sampleStringify (l : list jschar) : jsstring :=
  91%N :: l ++ [93%N].

Definition sampleParse (s : jsstring) : Parsed jschar :=
  match s with
  | 91%N :: rest =>
    if (last rest 0 =? 93)%N then ParsedArray (removelast rest)
    else ParseError
  | _ => ParseError
  end.

(** Storage without a quota. *)
Definition noQuota (text : jsstring) : option Thrown := None.

(** A quota of [limit] code units. *)
Definition quotaOf (limit : nat) (text : jsstring) : option Thrown :=
  if length text <=? limit then None
  else Some {| thrownText := utf16 "QuotaExceededError" |}.

(** A network that accepts every request. *)
Definition acceptingNet (req : FetchRequest) (n : unit)
  : option Thrown * unit := (None, n).

Definition emptyBrowser : Browser unit :=
  {| net := tt; stored := None; sent := []; logged_lines := [] |}.

Definition savedLine (count : nat) : jsstring :=
  utf16 "분석 결과 로컬 저장 완료 (누적 "
  ++ numToString (Z.of_nat count) ++ utf16 "건)".

Definition storageErrorLine (err : Thrown) : jsstring :=
  utf16 "로컬 저장 오류: " ++ thrownText err.

(** Saving the entries one after the other. *)
Definition saveAll {Net Entry : Type}
    (stringifyEntries : list Entry -> jsstring)
    (parseEntries : jsstring -> Parsed Entry)
    (setItemError : jsstring -> option Thrown)
    (entries : list Entry) (b : Browser Net) : Browser Net :=
  fold_left
    (fun b e => saveResultToLocal Net Entry stringifyEntries parseEntries
                  setItemError e b)
    entries b.

(** * Properties *)

(** ** Facts about the string built-ins *)

Lemma String_eqb_eq (a b : jsstring) : String_eqb a b = true <-> a = b.
Proof.
  revert b; induction a as [|x a IH]; intros [|y b]; simpl;
    try (split; [discriminate | discriminate]); try tauto.
  rewrite andb_true_iff, N.eqb_eq, IH. split.
  - intros [-> ->]; reflexivity.
  - intros H; injection H; auto.
Qed.

Lemma String_eqb_refl (a : jsstring) : String_eqb a a = true.
Proof. apply String_eqb_eq; reflexivity. Qed.

Lemma String_eqb_neq (a b : jsstring) : String_eqb a b = false <-> a <> b.
Proof.
  rewrite <- String_eqb_eq. destruct (String_eqb a b); split; congruence.
Qed.

Lemma startsWith_app (s p : jsstring) :
  startsWith s p = true <-> exists r, s = p ++ r.
Proof.
  revert s; induction p as [|x p IH]; intros s; simpl.
  - split; [intros _; now exists s | reflexivity].
  - destruct s as [|y s].
    + split; [discriminate | intros [r H]; discriminate].
    + rewrite andb_true_iff, N.eqb_eq, IH. split.
      * intros [-> [r ->]]. now exists r.
      * intros [r H]. injection H as -> ->. eauto.
Qed.

Lemma String_includes_app (s p : jsstring) :
  String_includes s p = true <-> exists a b, s = a ++ p ++ b.
Proof.
  induction s as [|c s IH]; simpl.
  - rewrite orb_false_r, startsWith_app. split.
    + intros [r H]. exists [], r. exact H.
    + intros [a [b H]]. destruct a; simpl in H.
      * now exists b.
      * discriminate.
  - rewrite orb_true_iff, startsWith_app, IH. split.
    + intros [[r H] | [a [b H]]].
      * exists [], r. exact H.
      * exists (c :: a), b. simpl. now rewrite H.
    + intros [[|c' a] [b H]]; simpl in H.
      * left. now exists b.
      * right. injection H as _ H. now exists a, b.
Qed.

Lemma endsWith_app (s p : jsstring) :
  endsWith s p = true <-> exists r, s = r ++ p.
Proof.
  unfold endsWith. rewrite andb_true_iff, Nat.leb_le, String_eqb_eq. split.
  - intros [Hle H]. exists (firstn (length s - length p) s).
    rewrite <- (firstn_skipn (length s - length p) s) at 1.
    f_equal. exact H.
  - intros [r ->]. rewrite length_app. split; [lia|].
    replace (length r + length p - length p) with (length r + 0) by lia.
    rewrite skipn_app, Nat.add_0_r, skipn_all.
    replace (length r - length r) with 0 by lia. reflexivity.
Qed.

(** [s.slice(0, -n)] drops the last [n] code units when [0 < n <= length]. *)
Lemma String_slice_drop_suffix (r p : jsstring) :
  p <> [] ->
  String_slice (r ++ p) 0 (- Z.of_nat (length p)) = r.
Proof.
  intros Hp. unfold String_slice.
  assert (0 < length p) by (destruct p; simpl; [congruence | lia]).
  rewrite length_app.
  destruct (Z.ltb_spec (- Z.of_nat (length p)) 0) as [_|]; [|lia].
  change (0 <? 0)%Z with false. cbv iota.
  rewrite Z.min_l by lia. rewrite Z.max_l by lia. simpl skipn.
  replace (Z.to_nat _) with (length r) by lia.
  rewrite firstn_app, firstn_all, Nat.sub_diag. simpl. apply app_nil_r.
Qed.

(** ** Particle stripping *)

Lemma stripLoop_step_test (w p : jsstring) :
  p <> [] ->
  (endsWith w p && (length p <? length w)%nat = true /\
   (2 <=? length (String_slice w 0 (- Z.of_nat (length p))))%nat = true)
  <-> strippable w p.
Proof.
  intros Hp. rewrite andb_true_iff, endsWith_app, Nat.ltb_lt, Nat.leb_le.
  split.
  - intros [[[r ->] Hlen] H2]. rewrite String_slice_drop_suffix in H2 by assumption.
    exists r. split; [reflexivity | assumption].
  - intros [r [-> H2]]. rewrite String_slice_drop_suffix by assumption.
    rewrite length_app. repeat split; eauto; lia.
Qed.

Lemma stripLoop_cons (p : jsstring) (ps : list jsstring) (w : jsstring) :
  stripLoop (p :: ps) w =
  if endsWith w p && (length p <? length w)%nat then
    if (2 <=? length (String_slice w 0 (- Z.of_nat (length p))))%nat
    then String_slice w 0 (- Z.of_nat (length p))
    else stripLoop ps w
  else stripLoop ps w.
Proof. reflexivity. Qed.

Lemma stripLoop_first (ps : list jsstring) (w : jsstring) :
  Forall (fun p => p <> []) ps ->
  (exists i p r,
      nth_error ps i = Some p /\ w = r ++ p /\ 2 <= length r /\
      stripLoop ps w = r /\
      forall j q, j < i -> nth_error ps j = Some q -> ~ strippable w q)
  \/ ((forall p, In p ps -> ~ strippable w p) /\ stripLoop ps w = w).
Proof.
  induction 1 as [|p ps Hp Hps IH].
  - right. split; [intros p [] | reflexivity].
  - pose proof (stripLoop_step_test w p Hp) as T.
    rewrite stripLoop_cons.
    destruct (endsWith w p && (length p <? length w)%nat) eqn:E1;
      [destruct (2 <=? length (String_slice w 0 (- Z.of_nat (length p))))%nat eqn:E2|].
    + left. destruct (proj1 T (conj eq_refl eq_refl)) as [r [-> H2]].
      exists 0, p, r. simpl. repeat split; auto.
      * apply String_slice_drop_suffix; assumption.
      * intros j q Hj; lia.
    + assert (~ strippable w p) as N by (intros S; apply T in S; destruct S; congruence).
      destruct IH as [[i [q [r [H1 [H2 [H3 [H4 H5]]]]]]] | [H1 H2]].
      * left. exists (S i), q, r. simpl. repeat split; auto.
        intros [|j] q' Hj Hq'; simpl in Hq'.
        -- now injection Hq' as <-.
        -- apply (H5 j); [lia | assumption].
      * right. split; [|assumption]. intros q [<- | Hq]; auto.
    + assert (~ strippable w p) as N by (intros S; apply T in S; destruct S; congruence).
      destruct IH as [[i [q [r [H1 [H2 [H3 [H4 H5]]]]]]] | [H1 H2]].
      * left. exists (S i), q, r. simpl. repeat split; auto.
        intros [|j] q' Hj Hq'; simpl in Hq'.
        -- now injection Hq' as <-.
        -- apply (H5 j); [lia | assumption].
      * right. split; [|assumption]. intros q [<- | Hq]; auto.
Qed.

Lemma PARTICLES_nonempty : Forall (fun p : jsstring => p <> []) PARTICLES.
Proof. repeat constructor; discriminate. Qed.

(** C5: [stripParticles] removes at most one suffix, the first particle
    of [PARTICLES] (in list order) whose removal leaves at least two
    code units; a particle that would leave fewer is passed over and the
    later ones are still tried; the result is not stripped again. The
    word 키워드를 becomes 키워드, the one-syllable word 가 is unchanged, 길으로
    loses only 로 (으로 would leave one syllable), and 학교에서는 loses only
    는 although 에서 could then be stripped. *)
Theorem stripParticles_first_strippable (w : jsstring) :
  ((exists i p r,
       nth_error PARTICLES i = Some p /\ w = r ++ p /\ 2 <= length r /\
       stripParticles w = r /\
       forall j q, j < i -> nth_error PARTICLES j = Some q ->
                   ~ strippable w q)
   \/ ((forall p, In p PARTICLES -> ~ strippable w p) /\
       stripParticles w = w))
  /\ stripParticles (utf16 "키워드를") = utf16 "키워드"
  /\ stripParticles (utf16 "가") = utf16 "가"
  /\ stripParticles (utf16 "길으로") = utf16 "길으"
  /\ stripParticles (utf16 "학교에서는") = utf16 "학교에서"
  /\ stripParticles (utf16 "학교에서") = utf16 "학교".
Proof.
  split; [apply stripLoop_first, PARTICLES_nonempty|].
  repeat split; vm_compute; reflexivity.
Qed.

(** ** Grades *)

(** C3: for a rank that is null or a positive integer, [calcGrade] gives
    S exactly for rank 1, A exactly for ranks 2 to 5, B exactly for 6 to
    10, C exactly for 11 to 30, and 미노출 exactly for ranks from 31 on and
    for null; the probe values 1, 2, 5, 6, 10, 11, 30, 31 and null map to
    S, A, A, B, B, C, C, 미노출, 미노출. *)
Theorem calcGrade_boundaries (rank : option Z) :
  (forall r, rank = Some r -> 1 <= r)%Z ->
  (calcGrade rank = GradeS <-> rank = Some 1%Z)
  /\ (calcGrade rank = GradeA <-> exists r, rank = Some r /\ 2 <= r <= 5)%Z
  /\ (calcGrade rank = GradeB <-> exists r, rank = Some r /\ 6 <= r <= 10)%Z
  /\ (calcGrade rank = GradeC <-> exists r, rank = Some r /\ 11 <= r <= 30)%Z
  /\ (calcGrade rank = GradeUnexposed <->
      rank = None \/ exists r, rank = Some r /\ 31 <= r)%Z
  /\ map calcGrade
       [Some 1; Some 2; Some 5; Some 6; Some 10; Some 11; Some 30; Some 31;
        None]%Z
     = [GradeS; GradeA; GradeA; GradeB; GradeB; GradeC; GradeC;
        GradeUnexposed; GradeUnexposed]
  /\ gradeText GradeUnexposed = utf16 "미노출".
Proof.
  intros Hpos. destruct rank as [r|].
  - specialize (Hpos r eq_refl). unfold calcGrade.
    destruct (Z.eqb_spec r 1) as [->|H1].
    + repeat split; try reflexivity; try discriminate;
        try (intros [r [E B]]; injection E as <-; lia);
        try (intros [E | [r [E B]]]; [discriminate | injection E as <-; lia]).
    + destruct (Z.leb_spec r 5); [|destruct (Z.leb_spec r 10);
        [|destruct (Z.leb_spec r 30)]];
      repeat split; try reflexivity; try discriminate;
        try (intros E; injection E; lia);
        try (intros [r' [E B]]; injection E as <-; lia);
        try (intros [E | [r' [E B]]]; [discriminate | injection E as <-; lia]);
        try (intros _; exists r; split; [reflexivity | lia]);
        try (intros _; right; exists r; split; [reflexivity | lia]).
  - simpl. repeat split; try reflexivity; try discriminate;
      try (intros [r [E B]]; discriminate); auto.
Qed.

Lemma calcGrade_boundaries_witness :
  calcGrade (Some 7%Z) = GradeB <->
  (exists r, Some 7 = Some r /\ 6 <= r <= 10)%Z.
Proof.
  refine (proj1 (proj2 (proj2 (calcGrade_boundaries (Some 7%Z) _)))).
  intros r E. injection E as <-. lia.
Defined.

(** ** Search-volume values *)

Lemma five_not_zero : 5%float <> 0%float.
Proof.
  intros H.
  assert (E : (5 =? 0)%float = (0 =? 0)%float) by (rewrite H; reflexivity).
  vm_compute in E. discriminate.
Qed.

(** C9: [parseVolume] returns a number unchanged; a string that contains
    the character < gives the floor value 5, which is not 0; a numeric
    string (one the conversion does not send to NaN, hence without <) gives
    its number; every other value the conversion sends to NaN gives 0. It
    holds whatever the built-in string-to-number conversion is; once that
    conversion sends every string with a < to NaN, as the built-in does,
    every string it does not send to NaN gives its number. *)
Theorem parseVolume_cases (StringToNumber : jsstring -> float) :
  (forall n, parseVolume StringToNumber (VNumber n) = n)
  /\ (forall s, String_includes s (utf16 "<") = true ->
        parseVolume StringToNumber (VString s) = 5%float)
  /\ 5%float <> 0%float
  /\ (forall s, String_includes s (utf16 "<") = false ->
        is_nan (StringToNumber s) = false ->
        parseVolume StringToNumber (VString s) = StringToNumber s)
  /\ ((forall s, String_includes s (utf16 "<") = true ->
                 is_nan (StringToNumber s) = true) ->
      forall s, is_nan (StringToNumber s) = false ->
                parseVolume StringToNumber (VString s) = StringToNumber s)
  /\ (forall v, typeofNumber v = None ->
        (forall s, v = VString s -> String_includes s (utf16 "<") = false) ->
        is_nan (Number StringToNumber v) = true ->
        parseVolume StringToNumber v = 0%float).
Proof.
  repeat split.
  - intros s H. unfold parseVolume. cbn [typeofNumber typeofString].
    now rewrite H.
  - exact five_not_zero.
  - intros s H N. unfold parseVolume. cbn [typeofNumber typeofString Number].
    now rewrite H, N.
  - intros B s N. unfold parseVolume. cbn [typeofNumber typeofString Number].
    destruct (String_includes s (utf16 "<")) eqn:H.
    + rewrite (B s H) in N. discriminate.
    + now rewrite N.
  - intros v Hn Hs N. unfold parseVolume. rewrite Hn.
    destruct v as [| |b|n|s|o]; cbn [typeofNumber typeofString] in *;
      try discriminate; try (now rewrite N).
    rewrite (Hs s eq_refl). now rewrite N.
Qed.

Lemma dropSpaces_keeps (c : jschar) (s : jsstring) :
  isSpace c = false -> In c s -> In c (dropSpaces s).
Proof.
  intros Hc. induction s as [|x s IH]; simpl; [tauto|].
  destruct (isSpace x) eqn:X; [|intros H; exact H].
  intros [-> | H]; [congruence | auto].
Qed.

Lemma String_includes_char (s : jsstring) (c : jschar) :
  String_includes s [c] = true -> In c s.
Proof.
  intros H. apply String_includes_app in H. destruct H as [a [b ->]].
  apply in_or_app. right. now left.
Qed.

(** The sample conversion reads no string with a < as a number. *)
Lemma decimalStringToNumber_lt (s : jsstring) :
  String_includes s (utf16 "<") = true ->
  is_nan (decimalStringToNumber s) = true.
Proof.
  intros H. apply String_includes_char in H.
  assert (In 60%N (trim s)) as T.
  { unfold trim. apply in_rev. rewrite rev_involutive.
    apply dropSpaces_keeps; [reflexivity|]. apply -> in_rev.
    apply dropSpaces_keeps; [reflexivity | assumption]. }
  unfold decimalStringToNumber. destruct (trim s) as [|c t] eqn:E; [destruct T|].
  assert (forallb isDigit (c :: t) = false) as ->; [|reflexivity].
  destruct (forallb isDigit (c :: t)) eqn:F; [|reflexivity].
  rewrite forallb_forall in F. specialize (F _ T). discriminate.
Qed.

Lemma parseVolume_cases_witness :
  parseVolume decimalStringToNumber (VString (utf16 "<10")) = 5%float
  /\ parseVolume decimalStringToNumber (VString (utf16 "1234")) = 1234%float
  /\ parseVolume decimalStringToNumber (VString (utf16 "12a4")) = 0%float
  /\ parseVolume decimalStringToNumber VUndefined = 0%float.
Proof.
  destruct (parseVolume_cases decimalStringToNumber)
    as [_ [H5 [_ [_ [Hn H0]]]]].
  split; [|split; [|split]].
  - apply H5. vm_compute. reflexivity.
  - rewrite (Hn decimalStringToNumber_lt (utf16 "1234"));
      vm_compute; reflexivity.
  - apply H0; [reflexivity | | vm_compute; reflexivity].
    intros s E. injection E as <-. vm_compute. reflexivity.
  - apply H0; [reflexivity | discriminate | vm_compute; reflexivity].
Defined.

(** ** Sets as deduplicated lists *)

Lemma Array_includes_In (xs : list jsstring) (x : jsstring) :
  Array_includes xs x = true <-> In x xs.
Proof.
  unfold Array_includes. rewrite existsb_exists. split.
  - intros [y [Hy E]]. apply String_eqb_eq in E. now subst.
  - intros H. exists x. split; [assumption | apply String_eqb_refl].
Qed.

Lemma Array_includes_not_In (xs : list jsstring) (x : jsstring) :
  Array_includes xs x = false <-> ~ In x xs.
Proof.
  rewrite <- Array_includes_In. destruct (Array_includes xs x); split; congruence.
Qed.

Lemma filter_filter_comm {A} (f g : A -> bool) (l : list A) :
  filter f (filter g l) = filter g (filter f l).
Proof.
  induction l as [|x l IH]; simpl; [reflexivity|].
  destruct (f x) eqn:F, (g x) eqn:G; simpl; rewrite ?F, ?G, IH; reflexivity.
Qed.

Lemma dedupFirst_In (xs : list jsstring) (x : jsstring) :
  In x (dedupFirst xs) <-> In x xs.
Proof.
  induction xs as [|y xs IH]; simpl; [tauto|].
  rewrite filter_In, IH, negb_true_iff, String_eqb_neq.
  destruct (list_eq_dec N.eq_dec y x); [subst|]; tauto.
Qed.

Lemma dedupFirst_NoDup (xs : list jsstring) : NoDup (dedupFirst xs).
Proof.
  induction xs as [|y xs IH]; simpl; constructor.
  - rewrite filter_In, negb_true_iff, String_eqb_neq. tauto.
  - now apply NoDup_filter.
Qed.

Lemma dedupFirst_filter (f : jsstring -> bool) (xs : list jsstring) :
  dedupFirst (filter f xs) = filter f (dedupFirst xs).
Proof.
  induction xs as [|x xs IH]; simpl; [reflexivity|].
  destruct (f x) eqn:F; simpl.
  - rewrite IH. f_equal. apply filter_filter_comm.
  - rewrite IH, filter_filter_comm. symmetry. apply forallb_filter_id.
    apply forallb_forall. intros y Hy. apply filter_In in Hy.
    destruct Hy as [_ Fy]. rewrite negb_true_iff, String_eqb_neq.
    intros ->. congruence.
Qed.

Lemma dedupFirst_NoDup_id (xs : list jsstring) :
  NoDup xs -> dedupFirst xs = xs.
Proof.
  induction 1 as [|x xs Hx Hnd IH]; simpl; [reflexivity|].
  rewrite IH. f_equal. apply forallb_filter_id. apply forallb_forall.
  intros y Hy. rewrite negb_true_iff, String_eqb_neq. intros ->. contradiction.
Qed.

Lemma filter_andb {A} (f g : A -> bool) (l : list A) :
  filter f (filter g l) = filter (fun a => g a && f a) l.
Proof.
  induction l as [|x l IH]; simpl; [reflexivity|].
  destruct (g x); simpl; [destruct (f x)|]; now rewrite IH.
Qed.

(** Adding the elements of [xs] to a set [acc] appends, in order, the
    first occurrences of those not yet in [acc]. *)
Lemma fold_Set_add (xs acc : list jsstring) :
  fold_left Set_add xs acc
  = acc ++ dedupFirst (filter (fun y => negb (Array_includes acc y)) xs).
Proof.
  revert acc; induction xs as [|x xs IH]; intros acc; simpl.
  - now rewrite app_nil_r.
  - rewrite IH. unfold Set_add at 1 2.
    destruct (Array_includes acc x) eqn:E; simpl; [reflexivity|].
    rewrite <- app_assoc. simpl. do 2 f_equal.
    rewrite <- dedupFirst_filter. f_equal.
    rewrite filter_andb.
    apply filter_ext. intros y. unfold Array_includes.
    rewrite existsb_app. simpl. rewrite orb_false_r, negb_orb.
    f_equal. f_equal. destruct (String_eqb y x) eqn:Y.
    + apply String_eqb_eq in Y. subst. now rewrite String_eqb_refl.
    + apply String_eqb_neq in Y. symmetry. apply String_eqb_neq. congruence.
Qed.

Lemma Set_of_dedupFirst (xs : list jsstring) : Set_of xs = dedupFirst xs.
Proof.
  unfold Set_of. rewrite fold_Set_add. simpl. f_equal.
  apply forallb_filter_id. apply forallb_forall. reflexivity.
Qed.

Lemma fold_Set_add_Set_of (xs ys : list jsstring) :
  fold_left Set_add ys (Set_of xs) = Set_of (xs ++ ys).
Proof. unfold Set_of. now rewrite fold_left_app. Qed.

(** ** Hashtag extraction *)

Lemma takeWhile_forallb (p : jschar -> bool) (s : jsstring) :
  forallb p (takeWhile p s) = true.
Proof.
  induction s as [|c s IH]; simpl; [reflexivity|].
  destruct (p c) eqn:E; simpl; [now rewrite E | reflexivity].
Qed.

Lemma takeWhile_split (p : jschar -> bool) (s : jsstring) :
  exists post, s = takeWhile p s ++ post /\ stopsRun p post.
Proof.
  induction s as [|c s [post [E S]]]; simpl.
  - exists []. split; [reflexivity | exact I].
  - destruct (p c) eqn:P.
    + exists post. split; [simpl; now rewrite <- E | assumption].
    + exists (c :: s). split; [reflexivity | exact P].
Qed.

Lemma takeWhile_longest (p : jschar -> bool) (t post : jsstring) :
  forallb p t = true -> stopsRun p post -> takeWhile p (t ++ post) = t.
Proof.
  intros Ht Hp. induction t as [|c t IH]; simpl in *.
  - destruct post as [|c post]; simpl in *; [reflexivity | now rewrite Hp].
  - apply andb_true_iff in Ht. destruct Ht as [Hc Ht].
    rewrite Hc, IH; auto.
Qed.

Lemma isTagChar_not_hash (c : jschar) :
  isTagChar c = true -> (c =? 35)%N = false.
Proof.
  intros H. destruct (N.eqb_spec c 35) as [->|]; [discriminate | reflexivity].
Qed.

Lemma matchHashtags_skipn (k : nat) (s : jsstring) :
  matchHashtags k s = matchHashtags 0 (skipn k s).
Proof.
  revert k; induction s as [|c s IH]; intros [|k]; try reflexivity.
  simpl skipn. rewrite <- IH. reflexivity.
Qed.

(** Tag characters in front of the text hold no hashtag. *)
Lemma matchHashtags_pass_run (run s : jsstring) :
  forallb isTagChar run = true ->
  matchHashtags 0 (run ++ s) = matchHashtags 0 s.
Proof.
  induction run as [|c run IH]; simpl; [reflexivity|].
  intros H. apply andb_true_iff in H. destruct H as [Hc Hrun].
  rewrite (isTagChar_not_hash c Hc). simpl. auto.
Qed.

Lemma matchHashtags_tokens (s : jsstring) :
  matchHashtags 0 s = map (cons 35%N) (hashtagTokens s).
Proof.
  induction s as [|c s IH]; [reflexivity|].
  cbn [matchHashtags hashtagTokens].
  destruct (takeWhile_split isTagChar s) as [post [E _]].
  pose proof (takeWhile_forallb isTagChar s) as Hall.
  destruct (takeWhile isTagChar s) as [|b body] eqn:T.
  - rewrite andb_false_r. exact IH.
  - cbn [length Nat.leb]. rewrite andb_true_r.
    destruct (N.eqb_spec c 35) as [->|]; [|exact IH].
    cbn [map]. f_equal. rewrite matchHashtags_skipn.
    rewrite <- IH. rewrite E at 2.
    rewrite matchHashtags_pass_run by assumption.
    rewrite E at 1. change (S (length body)) with (length (b :: body)).
    rewrite skipn_app, skipn_all, Nat.sub_diag. reflexivity.
Qed.

Lemma String_replace_hash (body : jsstring) :
  String_replace (35%N :: body) (utf16 "#") [] = body.
Proof. reflexivity. Qed.

Lemma extractHashtags_tokens (content : jsstring) :
  extractHashtags content = dedupFirst (hashtagTokens content).
Proof.
  unfold extractHashtags. rewrite Set_of_dedupFirst, matchHashtags_tokens.
  rewrite map_map. f_equal. rewrite <- (map_id (hashtagTokens content)) at 2.
  apply map_ext. intros t. apply String_replace_hash.
Qed.

Lemma hashtagTokens_In (s t : jsstring) :
  In t (hashtagTokens s) <-> hashtagOccurs s t.
Proof.
  induction s as [|c s IH].
  - simpl. split; [tauto|]. intros [pre [post [E _]]].
    destruct pre; discriminate.
  - cbn [hashtagTokens].
    destruct (takeWhile_split isTagChar s) as [post [E S]].
    pose proof (takeWhile_forallb isTagChar s) as Hall.
    assert (hashtagOccurs s t -> hashtagOccurs (c :: s) t) as Up.
    { intros [pre' [post' [E' R]]]. exists (c :: pre'), post'.
      split; [simpl; now rewrite <- E' | exact R]. }
    assert (hashtagOccurs (c :: s) t ->
            (c = 35%N /\ takeWhile isTagChar s = t /\ t <> [])
            \/ hashtagOccurs s t) as Down.
    { intros [[|c' pre'] [post' [E' [N [A R]]]]]; simpl in E'.
      - injection E' as -> ->. left. repeat split; auto.
        now apply takeWhile_longest.
      - injection E' as -> ->. right. exists pre', post'. auto. }
    destruct (takeWhile isTagChar s) as [|b body] eqn:T.
    + rewrite IH. split; [exact Up|]. intros H.
      destruct (Down H) as [[_ [<- N]] | H']; [congruence | assumption].
    + destruct (N.eqb_spec c 35) as [->|Hc].
      * simpl. rewrite IH. split.
        -- intros [<- | H]; [|now apply Up].
           exists [], post. split; [simpl; f_equal; exact E|].
           split; [discriminate|]. split; assumption.
        -- intros H. destruct (Down H) as [[_ [<- _]] | H']; auto.
      * rewrite IH. split; [exact Up|]. intros H.
        destruct (Down H) as [[-> _] | H']; [congruence | assumption].
Qed.

Lemma hashtagTokens_render (tags : list jsstring) :
  Forall (fun t => t <> [] /\ forallb isTagChar t = true) tags ->
  hashtagTokens (renderHashtags tags) = tags.
Proof.
  induction 1 as [|t tags [Hne Hall] _ IH]; [reflexivity|].
  unfold renderHashtags in *. cbn [map concat].
  change ((35%N :: t ++ SPACE) ++ concat (map (fun t => 35%N :: t ++ SPACE) tags))
    with (35%N :: (t ++ SPACE) ++ concat (map (fun t => 35%N :: t ++ SPACE) tags)).
  cbn [hashtagTokens]. rewrite <- app_assoc.
  rewrite (takeWhile_longest isTagChar t) by (auto; reflexivity).
  destruct t as [|b t]; [congruence|]. rewrite N.eqb_refl. f_equal.
  rewrite <- IH at 2.
  assert (forall run rest, forallb isTagChar run = true ->
            hashtagTokens (run ++ 32%N :: rest) = hashtagTokens rest) as Pass.
  { clear. induction run as [|c run IHr]; intros rest H.
    - simpl. now destruct (takeWhile isTagChar rest).
    - simpl in H. apply andb_true_iff in H. destruct H as [Hc Hr].
      cbn [app hashtagTokens]. rewrite (isTagChar_not_hash c Hc).
      rewrite IHr by assumption.
      now destruct (takeWhile isTagChar (run ++ 32%N :: rest)). }
  apply (Pass (b :: t)). exact Hall.
Qed.

(** C7: [extractHashtags] returns the hashtag tokens of the text (each a
    # followed by one or more Hangul, Latin, digit or underscore code
    units, taken as far as they go) without the leading #, in scan order
    with every duplicate after the first occurrence removed; no token
    repeats; extracting again from the extracted tags written back as
    text returns the same list (idempotence); and the text #봄 옷 #봄
    yields exactly one tag, 봄. *)
Theorem extractHashtags_dedup_in_order (content : jsstring) :
  extractHashtags content = dedupFirst (hashtagTokens content)
  /\ (forall t, In t (extractHashtags content) <-> hashtagOccurs content t)
  /\ NoDup (extractHashtags content)
  /\ extractHashtags (renderHashtags (extractHashtags content))
     = extractHashtags content
  /\ extractHashtags (utf16 "#봄 옷 #봄") = [utf16 "봄"].
Proof.
  split; [apply extractHashtags_tokens|].
  split; [intros t; rewrite extractHashtags_tokens, dedupFirst_In;
          apply hashtagTokens_In|].
  split; [rewrite extractHashtags_tokens; apply dedupFirst_NoDup|].
  split; [|vm_compute; reflexivity].
  rewrite (extractHashtags_tokens (renderHashtags _)).
  rewrite hashtagTokens_render.
  - apply dedupFirst_NoDup_id. rewrite extractHashtags_tokens.
    apply dedupFirst_NoDup.
  - apply Forall_forall. intros t Ht.
    rewrite extractHashtags_tokens, dedupFirst_In, hashtagTokens_In in Ht.
    destruct Ht as [pre [post [_ [N [A _]]]]]. auto.
Qed.

(** ** The stable sort *)

Section SortFacts.
Context {A : Type} (cmp : A -> A -> Z) (key : A -> Z).
Hypothesis cmp_key : forall a b, (cmp a b <= 0 <-> key a <= key b)%Z.

Let keyLe (a b : A) : Prop := (key a <= key b)%Z.

Lemma insert_cons_le (x y : A) (l : list A) :
  (key x <= key y)%Z -> insert cmp x (y :: l) = x :: y :: l.
Proof.
  intros H. simpl. destruct (Z.leb_spec (cmp x y) 0) as [_|C];
    [reflexivity | apply cmp_key in H; lia].
Qed.

Lemma insert_cons_gt (x y : A) (l : list A) :
  (key y < key x)%Z -> insert cmp x (y :: l) = y :: insert cmp x l.
Proof.
  intros H. simpl. destruct (Z.leb_spec (cmp x y) 0) as [C|_];
    [apply cmp_key in C; lia | reflexivity].
Qed.

Lemma insert_perm (x : A) (l : list A) :
  Permutation (insert cmp x l) (x :: l).
Proof.
  induction l as [|y l IH]; simpl; [reflexivity|].
  destruct (cmp x y <=? 0)%Z; [reflexivity|].
  rewrite IH. apply perm_swap.
Qed.

Lemma Array_sort_perm (l : list A) : Permutation (Array_sort cmp l) l.
Proof.
  induction l as [|x l IH]; simpl; [reflexivity|].
  rewrite insert_perm. now apply perm_skip.
Qed.

Lemma insert_sorted (x : A) (l : list A) :
  StronglySorted keyLe l -> StronglySorted keyLe (insert cmp x l).
Proof.
  induction 1 as [|y l Hs IH Hy]; [repeat constructor|].
  destruct (Z.le_gt_cases (key x) (key y)) as [L|G].
  - rewrite insert_cons_le by assumption.
    constructor; [now constructor|]. constructor; [exact L|].
    eapply Forall_impl; [|exact Hy]. intros z Hz. unfold keyLe in *. lia.
  - rewrite insert_cons_gt by assumption. constructor; [assumption|].
    eapply Permutation_Forall; [symmetry; apply insert_perm|].
    constructor; [unfold keyLe; lia | assumption].
Qed.

Lemma Array_sort_sorted (l : list A) :
  StronglySorted keyLe (Array_sort cmp l).
Proof.
  induction l as [|x l IH]; simpl; [constructor | now apply insert_sorted].
Qed.

(** Stability: entries with the same key keep their order. *)
Lemma insert_same_key (k : Z) (x : A) (l : list A) :
  filter (fun a => key a =? k)%Z (insert cmp x l)
  = filter (fun a => key a =? k)%Z (x :: l).
Proof.
  induction l as [|y l IH]; [reflexivity|].
  destruct (Z.le_gt_cases (key x) (key y)) as [L|G].
  - now rewrite insert_cons_le.
  - rewrite insert_cons_gt by assumption.
    cbn [filter] in *. rewrite IH.
    destruct (Z.eqb_spec (key x) k), (Z.eqb_spec (key y) k);
      try reflexivity. lia.
Qed.

Lemma Array_sort_stable (k : Z) (l : list A) :
  filter (fun a => key a =? k)%Z (Array_sort cmp l)
  = filter (fun a => key a =? k)%Z l.
Proof.
  induction l as [|x l IH]; [reflexivity|].
  cbn [Array_sort]. rewrite insert_same_key. cbn [filter].
  now rewrite IH.
Qed.

(** The head of the sorted array is the first entry of least key. *)
Lemma Array_sort_head (l : list A) (e : A) (rest : list A) :
  Array_sort cmp l = e :: rest ->
  exists l1 l2,
    l = l1 ++ e :: l2 /\
    Forall (fun y => key e < key y)%Z l1 /\
    Forall (fun y => key e <= key y)%Z l2.
Proof.
  revert e rest; induction l as [|x l IH]; intros e rest H; [discriminate|].
  cbn [Array_sort] in H.
  destruct (Array_sort cmp l) as [|y s] eqn:S.
  - assert (l = []) as ->.
    { apply Permutation_nil. rewrite <- S. apply Array_sort_perm. }
    simpl in H. injection H as <- <-. exists [], []. repeat constructor.
  - destruct (IH y s eq_refl) as [m1 [m2 [E [F1 F2]]]].
    destruct (Z.le_gt_cases (key x) (key y)) as [L|G].
    + rewrite insert_cons_le in H by assumption. injection H as <- <-.
      exists [], l. split; [reflexivity|]. split; [constructor|].
      subst l. apply Forall_app. split.
      * eapply Forall_impl; [|exact F1]. simpl. intros; lia.
      * constructor; [exact L|].
        eapply Forall_impl; [|exact F2]. simpl. intros; lia.
    + rewrite insert_cons_gt in H by assumption. injection H as <- <-.
      exists (x :: m1), m2. subst l. repeat split; auto.
Qed.

Lemma Array_sort_nil (l : list A) : Array_sort cmp l = [] -> l = [].
Proof.
  intros H. apply Permutation_nil. rewrite <- H. apply Array_sort_perm.
Qed.
End SortFacts.

(** ** Noun frequencies *)

Lemma String_eqb_sym (a b : jsstring) : String_eqb a b = String_eqb b a.
Proof.
  destruct (String_eqb b a) eqn:E.
  - apply String_eqb_eq in E. subst. apply String_eqb_refl.
  - apply String_eqb_neq in E. apply String_eqb_neq. congruence.
Qed.

Lemma Map_get_set {V} (m : Map V) (k q : jsstring) (v : V) :
  Map_get (Map_set m k v) q = if String_eqb k q then Some v else Map_get m q.
Proof.
  induction m as [|[k' v'] m IH]; simpl.
  - reflexivity.
  - destruct (String_eqb k' k) eqn:K; simpl.
    + apply String_eqb_eq in K. subst k'. now destruct (String_eqb k q).
    + rewrite IH. destruct (String_eqb k' q) eqn:Q; [|reflexivity].
      apply String_eqb_eq in Q. subst q.
      rewrite String_eqb_sym, K. reflexivity.
Qed.

Lemma Map_set_keys {V} (m : Map V) (k : jsstring) (v : V) :
  map fst (Map_set m k v) = Set_add (map fst m) k.
Proof.
  unfold Set_add, Array_includes.
  induction m as [|[k' v'] m IH]; simpl; [reflexivity|].
  rewrite (String_eqb_sym k k').
  destruct (String_eqb k' k); simpl; [reflexivity|].
  rewrite IH. now destruct (existsb (String_eqb k) (map fst m)).
Qed.

Lemma fold_left_filter_map {A B C} (step : A -> B -> A) (upd : A -> C -> A)
    (g : B -> C) (keep : C -> bool) :
  (forall a x, step a x = if keep (g x) then upd a (g x) else a) ->
  forall (xs : list B) (a : A),
    fold_left step xs a = fold_left upd (filter keep (map g xs)) a.
Proof.
  intros H. induction xs as [|x xs IH]; intros a; [reflexivity|].
  cbn [fold_left map filter]. rewrite IH, H.
  now destruct (keep (g x)).
Qed.

Lemma countWord_bump (m : Map Z) (r : jsstring) :
  countWord m r
  = if (fun w => negb ((length w <? 2)%nat || Array_includes STOPWORDS w))
         (stripParticles r)
    then bump m (stripParticles r) else m.
Proof.
  unfold countWord, bump, getOr0.
  generalize (stripParticles r). intros w. cbv beta.
  generalize ((length w <? 2)%nat || Array_includes STOPWORDS w).
  intros [|]; reflexivity.
Qed.

Lemma fold_countWord (raws : list jsstring) (m : Map Z) :
  fold_left countWord raws m
  = fold_left bump
      (filter (fun w => negb ((length w <? 2)%nat
                              || Array_includes STOPWORDS w))
         (map stripParticles raws)) m.
Proof.
  exact (fold_left_filter_map countWord bump stripParticles
           (fun w => negb ((length w <? 2)%nat
                           || Array_includes STOPWORDS w))
           countWord_bump raws m).
Qed.

Lemma fold_bump_get (ws : list jsstring) (m : Map Z) (w : jsstring) :
  Map_get (fold_left bump ws m) w
  = match count_occ (list_eq_dec N.eq_dec) ws w with
    | O => Map_get m w
    | S c => Some (getOr0 m w + Z.of_nat (S c))%Z
    end.
Proof.
  revert m; induction ws as [|x ws IH]; intros m; [reflexivity|].
  cbn [fold_left count_occ]. rewrite IH. unfold bump at 1 2, getOr0.
  rewrite !Map_get_set.
  destruct (list_eq_dec N.eq_dec x w) as [->|N].
  - rewrite String_eqb_refl.
    destruct (count_occ (list_eq_dec N.eq_dec) ws w); f_equal; lia.
  - apply String_eqb_neq in N. rewrite N. reflexivity.
Qed.

Lemma fold_bump_keys (ws : list jsstring) (m : Map Z) :
  map fst (fold_left bump ws m) = fold_left Set_add ws (map fst m).
Proof.
  revert m; induction ws as [|x ws IH]; intros m; [reflexivity|].
  cbn [fold_left]. rewrite IH. unfold bump. now rewrite Map_set_keys.
Qed.

Lemma extractNouns_fold (text : jsstring) :
  extractNouns text = fold_left bump (nounWords text) [].
Proof. unfold extractNouns. apply fold_countWord. Qed.

Lemma extractNouns_keys (text : jsstring) :
  map fst (extractNouns text) = dedupFirst (nounWords text).
Proof.
  rewrite extractNouns_fold, fold_bump_keys. apply Set_of_dedupFirst.
Qed.

Lemma extractNouns_get (text w : jsstring) :
  Map_get (extractNouns text) w
  = if (frequency text w =? 0)%Z then None else Some (frequency text w).
Proof.
  rewrite extractNouns_fold, fold_bump_get. unfold frequency.
  destruct (count_occ (list_eq_dec N.eq_dec) (nounWords text) w) eqn:C.
  - reflexivity.
  - unfold getOr0. simpl Map_get.
    destruct (Z.eqb_spec (Z.of_nat (S n)) 0); [lia | f_equal].
Qed.

Lemma Map_get_In {V} (m : Map V) (k : jsstring) (v : V) :
  NoDup (map fst m) -> (In (k, v) m <-> Map_get m k = Some v).
Proof.
  induction m as [|[k' v'] m IH]; simpl; intros ND.
  - split; [tauto | discriminate].
  - inversion ND as [|? ? Hn ND']; subst.
    destruct (String_eqb k' k) eqn:K.
    + apply String_eqb_eq in K. subst k'. split.
      * intros [E | HIn]; [now injection E as -> |].
        exfalso. apply Hn. apply in_map_iff. now exists (k, v).
      * intros E. injection E as ->. now left.
    + apply String_eqb_neq in K. rewrite <- (IH ND'). split.
      * intros [E | HIn]; [injection E as -> ->; congruence | assumption].
      * now right.
Qed.

Lemma extractNouns_In (text w : jsstring) (n : Z) :
  In (w, n) (extractNouns text) <-> (n = frequency text w /\ 0 < n)%Z.
Proof.
  rewrite Map_get_In
    by (rewrite extractNouns_keys; apply dedupFirst_NoDup).
  rewrite extractNouns_get.
  assert (0 <= frequency text w)%Z by (unfold frequency; lia).
  destruct (Z.eqb_spec (frequency text w) 0); split.
  - discriminate.
  - intros [-> ?]. lia.
  - intros E. injection E as <-. lia.
  - intros [-> _]. reflexivity.
Qed.


(** ** Smart keywords *)

Lemma Set_add_length (acc : list jsstring) (x : jsstring) :
  length (Set_add acc x) <= S (length acc).
Proof.
  unfold Set_add. destruct (Array_includes acc x); [lia|].
  rewrite length_app. simpl. lia.
Qed.

(** A filling loop yields the first five entries of the set it would
    build without the cap. *)
Lemma fill_firstn (candidates result : list jsstring) :
  length result <= 5 ->
  fill result candidates = firstn 5 (fold_left Set_add candidates result).
Proof.
  revert result; induction candidates as [|x xs IH]; intros result Hlen.
  - cbn [fill fold_left]. symmetry. now apply firstn_all2.
  - cbn [fill fold_left]. destruct (Nat.leb_spec 5 (length result)) as [H5|H5].
    + rewrite fold_Set_add. unfold Set_add.
      destruct (Array_includes result x).
      * rewrite firstn_app. replace (5 - length result) with 0 by lia.
        rewrite firstn_all2 by lia. rewrite firstn_O. now rewrite app_nil_r.
      * rewrite <- app_assoc, firstn_app.
        replace (5 - length result) with 0 by lia.
        rewrite firstn_all2 by lia. rewrite firstn_O. now rewrite app_nil_r.
    + fold (Set_add result x). apply IH.
      pose proof (Set_add_length result x). lia.
Qed.

(** One stage of [extractSmartKeywords]: return early when full, else
    fill from the next source. *)
Lemma fill_stage (xs ys : list jsstring) :
  (if (5 <=? length (firstn 5 (Set_of xs)))%nat
   then firstn 5 (Set_of xs)
   else fill (firstn 5 (Set_of xs)) ys)
  = firstn 5 (Set_of (xs ++ ys)).
Proof.
  rewrite <- fold_Set_add_Set_of.
  destruct (Nat.leb_spec 5 (length (firstn 5 (Set_of xs)))) as [H5|H5].
  - rewrite length_firstn in H5. rewrite fold_Set_add, firstn_app.
    replace (5 - length (Set_of xs)) with 0 by lia.
    rewrite firstn_O. now rewrite app_nil_r.
  - rewrite length_firstn in H5.
    rewrite firstn_all2 by lia. apply fill_firstn. lia.
Qed.

Lemma extractSmartKeywords_firstn (title content : jsstring)
    (hashtags : list jsstring) :
  extractSmartKeywords title content hashtags
  = firstn 5
      (dedupFirst
         (hashtags
          ++ map fst (Array_sort byScoreDesc (scoredNouns title content))
          ++ extractTitleNgrams title)).
Proof.
  unfold extractSmartKeywords.
  set (words := map fst (Array_sort byScoreDesc (scoredNouns title content))).
  set (ngrams := extractTitleNgrams title).
  rewrite <- Set_of_dedupFirst.
  assert (fill [] hashtags = firstn 5 (Set_of hashtags)) as ->
    by (apply fill_firstn; simpl; lia).
  destruct (Nat.leb_spec 5 (length (firstn 5 (Set_of hashtags)))) as [H5|H5].
  - rewrite length_firstn in H5.
    rewrite <- fold_Set_add_Set_of, fold_Set_add, firstn_app.
    replace (5 - length (Set_of hashtags)) with 0 by lia.
    rewrite firstn_O. now rewrite app_nil_r.
  - rewrite length_firstn in H5.
    rewrite (firstn_all2 (n := 5) (Set_of hashtags)) by lia.
    rewrite fill_firstn by lia. rewrite fold_Set_add_Set_of.
    rewrite fill_stage. now rewrite <- app_assoc.
Qed.





Lemma NoDup_prefix {A} (n : nat) (l : list A) :
  NoDup l -> NoDup (firstn n l).
Proof.
  intros H. rewrite <- (firstn_skipn n l) in H.
  now apply NoDup_app_remove_r in H.
Qed.

Lemma In_prefix {A} (n : nat) (l : list A) (x : A) :
  In x (firstn n l) -> In x l.
Proof.
  intros H. rewrite <- (firstn_skipn n l). apply in_or_app. now left.
Qed.


(** ** Rank probing *)

Section RankFacts.
Variable World : Type.
Variable searchApi : SearchRequest -> World -> (JsError + SearchData) * World.
Variable toLowerCase : jsstring -> jsstring.
Variables (keyword urlPattern : jsstring) (config : Config).

Let matches := itemMatches toLowerCase urlPattern.
Let scan := scanItems toLowerCase urlPattern.
Let Run := PageRun toLowerCase keyword urlPattern config.

Lemma scanItems_NotFound (rank rank' : Z) (l : list SearchItem) :
  scan rank l = NotFound rank' <->
  (rank' = rank + Z.of_nat (length l))%Z /\
  Forall (fun it => matches it = false) l.
Proof.
  subst scan matches. revert rank; induction l as [|it l IH]; intros rank.
  - simpl. split.
    + intros E. injection E as <-. split; [lia | constructor].
    + intros [-> _]. f_equal. lia.
  - cbn [scanItems length]. destruct (itemMatches toLowerCase urlPattern it) eqn:M.
    + split; [discriminate|]. intros [_ F]. inversion F; congruence.
    + rewrite IH. split.
      * intros [-> F]. split; [lia | now constructor].
      * intros [-> F]. inversion F; subst. split; [lia | assumption].
Qed.

Lemma scanItems_Found (rank n : Z) (l : list SearchItem) :
  scan rank l = Found n <->
  exists l1 it l2,
    l = l1 ++ it :: l2 /\
    Forall (fun x => matches x = false) l1 /\
    matches it = true /\ (n = rank + Z.of_nat (length l1) + 1)%Z.
Proof.
  subst scan matches. revert rank; induction l as [|it l IH]; intros rank.
  - simpl. split; [discriminate|]. intros [l1 [x [l2 [E _]]]].
    destruct l1; discriminate.
  - cbn [scanItems]. destruct (itemMatches toLowerCase urlPattern it) eqn:M.
    + split.
      * intros E. injection E as <-. exists [], it, l.
        repeat split; auto. simpl. lia.
      * intros [[|x l1] [y [l2 [E [F [My ->]]]]]]; simpl in E.
        -- simpl. f_equal. lia.
        -- injection E as -> ->. inversion F; congruence.
    + rewrite IH. split.
      * intros [l1 [y [l2 [-> [F [My ->]]]]]]. exists (it :: l1), y, l2.
        repeat split; auto. simpl length. lia.
      * intros [[|x l1] [y [l2 [E [F [My ->]]]]]]; simpl in E.
        -- injection E as -> ->. congruence.
        -- injection E as -> ->. inversion F; subst.
           exists l1, y, l2. repeat split; auto. simpl length. lia.
Qed.

Lemma scanItems_app (rank : Z) (l1 l2 : list SearchItem) :
  scan rank (l1 ++ l2)
  = match scan rank l1 with
    | Found n => Found n
    | NotFound rank' => scan rank' l2
    end.
Proof.
  subst scan. revert rank; induction l1 as [|it l1 IH]; intros rank.
  - reflexivity.
  - cbn [app scanItems].
    destruct (itemMatches toLowerCase urlPattern it); [reflexivity | apply IH].
Qed.

(** The page loop makes the calls of a [PageRun], and nothing else. *)
Lemma pageLoop_run (fuel : nat) (start rank : Z) (st : State World) :
  (100 - start < Z.of_nat fuel)%Z ->
  exists res st' calls,
    pageLoop World searchApi toLowerCase fuel keyword urlPattern config
      start rank st = (res, st') /\
    trace World st' = trace World st ++ searchEvents calls /\
    Answers searchApi (world World st) calls (world World st') /\
    Run start rank calls res.
Proof.
  subst Run. revert start rank st; induction fuel as [|fuel IH];
    intros start rank st Hfuel.
  - exists (inr None), st, []. simpl. rewrite app_nil_r.
    repeat split; constructor. lia.
  - cbn [pageLoop]. unfold MAX_RESULTS.
    destruct (Z.leb_spec start 100) as [Hle|Hgt].
    + unfold bind, axiosGetSearch.
      change {| query := keyword; display := PAGE_SIZE; start := start;
                X_Naver_Client_Id := clientId (naverSearch config);
                X_Naver_Client_Secret := clientSecret (naverSearch config) |}
        with (pageRequest keyword config start).
      destruct (searchApi (pageRequest keyword config start) (world World st))
        as [[e|data] w1] eqn:Api.
      * eexists _, _, [(_, inl e)]. split; [reflexivity|].
        split; [reflexivity|]. split.
        -- econstructor; [exact Api | constructor].
        -- now constructor.
      * fold (pageItems (inr data)).
        destruct (scanItems toLowerCase urlPattern rank (pageItems (inr data)))
          as [n|rank'] eqn:Sc.
        -- eexists _, _, [(_, inr data)]. split; [reflexivity|].
           split; [reflexivity|]. split.
           ++ econstructor; [exact Api | constructor].
           ++ now constructor.
        -- unfold PAGE_SIZE.
           destruct (Z.ltb_spec (Z.of_nat (length (pageItems (inr data)))) 10)
             as [Hshort|Hfull].
           ++ eexists _, _, [(_, inr data)]. split; [reflexivity|].
              split; [reflexivity|]. split.
              ** econstructor; [exact Api | constructor].
              ** eapply PageRun_short; eauto.
           ++ destruct (IH (start + 10)%Z rank'
                          {| world := w1;
                             trace := trace World st
                                      ++ [EvSearch (pageRequest keyword config start)
                                            (inr data)] |})
                as [res [st' [calls [E [T [A R]]]]]]; [lia|].
              exists res, st', ((pageRequest keyword config start, inr data) :: calls).
              split; [exact E|]. split.
              ** rewrite T. simpl. now rewrite <- app_assoc.
              ** split; [econstructor; [exact Api | exact A]|].
                 eapply PageRun_next; eauto.
    + exists (inr None), st, []. simpl. rewrite app_nil_r.
      repeat split; constructor. lia.
Qed.

(** Fuel beyond what the depth needs changes nothing. *)
Lemma pageLoop_fuel (fuel1 fuel2 : nat) (start rank : Z) (st : State World) :
  (100 - start < Z.of_nat fuel1)%Z ->
  (100 - start < Z.of_nat fuel2)%Z ->
  pageLoop World searchApi toLowerCase fuel1 keyword urlPattern config
    start rank st
  = pageLoop World searchApi toLowerCase fuel2 keyword urlPattern config
      start rank st.
Proof.
  revert fuel2 start rank st; induction fuel1 as [|fuel1 IH];
    intros [|fuel2] start rank st H1 H2; cbn [pageLoop];
    unfold MAX_RESULTS; destruct (Z.leb_spec start 100);
    try lia; try reflexivity.
  unfold bind.
  match goal with
  | |- context [axiosGetSearch World searchApi ?rq st] =>
    destruct (axiosGetSearch World searchApi rq st) as [[e|data] st1]
  end; [reflexivity|].
  match goal with
  | |- context [scanItems toLowerCase urlPattern rank ?l] =>
    destruct (scanItems toLowerCase urlPattern rank l); [reflexivity|];
    destruct (Z.of_nat (length l) <? PAGE_SIZE)%Z; [reflexivity|]
  end.
  apply IH; unfold PAGE_SIZE; lia.
Qed.
End RankFacts.

Section PageRunFacts.
Variable toLowerCase : jsstring -> jsstring.
Variables (keyword urlPattern : jsstring) (config : Config).

Let matches := itemMatches toLowerCase urlPattern.
Let scan := scanItems toLowerCase urlPattern.
Let Run := PageRun toLowerCase keyword urlPattern config.

Lemma PageRun_requests start rank calls res :
  Run start rank calls res ->
  map fst calls
  = map (fun i => pageRequest keyword config (start + 10 * Z.of_nat i)%Z)
      (seq 0 (length calls)).
Proof.
  subst Run. induction 1 as [s r H0 | s r e H | s r d n H Sc | s r d r' H Sc L
                            | s r d r' calls res H Sc L R IH];
    try (simpl; now rewrite ?Z.add_0_r).
  cbn [map length seq fst]. rewrite Z.add_0_r. f_equal.
  rewrite IH, <- seq_shift, map_map. apply map_ext. intros i.
  f_equal. lia.
Qed.

Lemma PageRun_call_bound start rank calls res :
  Run start rank calls res ->
  calls = [] \/ (start + 10 * Z.of_nat (length calls) <= 110)%Z.
Proof.
  subst Run. induction 1 as [s r H0 | s r e H | s r d n H Sc | s r d r' H Sc L
                            | s r d r' calls res H Sc L R IH];
    try (now left); try (right; simpl; lia).
  right. destruct IH as [-> | IH]; simpl length; lia.
Qed.

Lemma PageRun_nonempty start rank calls res :
  Run start rank calls res -> (start <= 100)%Z -> calls <> [].
Proof. subst Run. destruct 1; intros; [lia | discriminate ..]. Qed.

(** The result is the outcome of one scan over all items fetched. *)
Lemma PageRun_scan start rank calls res :
  Run start rank calls res ->
  match res with
  | inr (Some n) => scan rank (callItems calls) = Found n
  | _ => exists rank', scan rank (callItems calls) = NotFound rank'
  end.
Proof.
  subst Run scan. induction 1 as [s r H0 | s r e H | s r d n H Sc | s r d r' H Sc L
                                 | s r d r' calls res H Sc L R IH].
  - now exists r.
  - now exists r.
  - unfold callItems. cbn [flat_map snd]. now rewrite app_nil_r.
  - exists r'. unfold callItems. cbn [flat_map snd]. now rewrite app_nil_r.
  - unfold callItems in *. cbn [flat_map snd].
    destruct res as [e | [n|]];
      [destruct IH as [r2 IH]; exists r2 | | destruct IH as [r2 IH]; exists r2];
      rewrite (scanItems_app toLowerCase urlPattern), Sc; exact IH.
Qed.

(** A failed call ends the run, with that error. *)
Lemma PageRun_error_last start rank calls res req e :
  Run start rank calls res ->
  In (req, inl e) calls ->
  res = inl e /\ exists calls0, calls = calls0 ++ [(req, inl e)].
Proof.
  subst Run. induction 1 as [s r H0 | s r e' H | s r d n H Sc | s r d r' H Sc L
                            | s r d r' calls res H Sc L R IH]; intros HIn.
  - destruct HIn.
  - destruct HIn as [E | []]. injection E as <- <-.
    split; [reflexivity | now exists []].
  - destruct HIn as [E | []]. discriminate.
  - destruct HIn as [E | []]. discriminate.
  - destruct HIn as [E | HIn]; [discriminate|].
    destruct (IH HIn) as [-> [calls0 ->]]. split; [reflexivity|].
    now exists ((pageRequest keyword config s, inr d) :: calls0).
Qed.

Lemma PageRun_thrown start rank calls e :
  Run start rank calls (inl e) ->
  exists calls0 req, calls = calls0 ++ [(req, inl e)].
Proof.
  subst Run. intros R. remember (inl e) as res eqn:E.
  induction R as [s r H0 | s r e' H | s r d n H Sc | s r d r' H Sc L
                 | s r d r' calls res H Sc L R IH]; try discriminate.
  - injection E as ->. now exists [], (pageRequest keyword config s).
  - destruct (IH E) as [calls0 [req ->]].
    now exists ((pageRequest keyword config s, inr d) :: calls0), req.
Qed.

Lemma PageRun_no_error start rank calls r :
  Run start rank calls (inr r) ->
  forall req e, ~ In (req, inl e) calls.
Proof.
  intros R req e HIn.
  destruct (PageRun_error_last _ _ _ _ _ _ R HIn) as [E _]. discriminate.
Qed.

(** Every page that is followed by another call was a full page. *)
Lemma PageRun_full_pages start rank calls res :
  Run start rank calls res ->
  forall i c, nth_error calls i = Some c -> S i < length calls ->
              10 <= length (pageItems (snd c)).
Proof.
  subst Run. induction 1 as [s r H0 | s r e H | s r d n H Sc | s r d r' H Sc L
                            | s r d r' calls res H Sc L R IH];
    intros i c Hn Hlt; try (simpl in Hlt; lia).
  destruct i as [|i]; simpl in Hn.
  - injection Hn as <-. simpl snd. lia.
  - apply (IH i c Hn). simpl in Hlt. lia.
Qed.

Lemma callItems_length (calls : list Call) :
  Forall (fun c => length (pageItems (snd c)) <= 10) calls ->
  length (callItems calls) <= 10 * length calls.
Proof.
  induction 1 as [|c calls Hc _ IH]; [simpl; lia|].
  unfold callItems in *. cbn [flat_map length]. rewrite length_app. lia.
Qed.
End PageRunFacts.

Section GetBlogRankFacts.
Variable World : Type.
Variable searchApi : SearchRequest -> World -> (JsError + SearchData) * World.
Variable toLowerCase : jsstring -> jsstring.

Lemma searchCalls_app (t1 t2 : list Event) :
  searchCalls (t1 ++ t2) = searchCalls t1 ++ searchCalls t2.
Proof. apply flat_map_app. Qed.

Lemma logLines_app (t1 t2 : list Event) :
  logLines (t1 ++ t2) = logLines t1 ++ logLines t2.
Proof. apply flat_map_app. Qed.

Lemma adsCalls_app (t1 t2 : list Event) :
  adsCalls (t1 ++ t2) = adsCalls t1 ++ adsCalls t2.
Proof. apply flat_map_app. Qed.

Lemma searchCalls_searchEvents (calls : list Call) :
  searchCalls (searchEvents calls) = calls.
Proof.
  induction calls as [|[req res] calls IH]; simpl; [reflexivity|].
  now rewrite IH.
Qed.

Lemma logLines_searchEvents (calls : list Call) :
  logLines (searchEvents calls) = [].
Proof. induction calls as [|[req res] calls IH]; simpl; auto. Qed.

Lemma adsCalls_searchEvents (calls : list Call) :
  adsCalls (searchEvents calls) = [].
Proof. induction calls as [|[req res] calls IH]; simpl; auto. Qed.

Lemma getBlogRank_run (keyword blogId : jsstring) (config : Config)
    (logging : bool) (st : State World) :
  exists res st' calls,
    PageRun toLowerCase keyword (urlPatternOf blogId) config 1 0 calls res /\
    Answers searchApi (world World st) calls (world World st') /\
    getBlogRank World searchApi toLowerCase keyword blogId config
      (sinkOption World logging) st = (inr (rankOf res), st') /\
    trace World st'
    = trace World st ++ searchEvents calls ++ errorLog logging keyword res.
Proof.
  destruct (pageLoop_run World searchApi toLowerCase keyword
              (urlPatternOf blogId) config (S (Z.to_nat 100)) 1 0 st)
    as [res [st1 [calls [E [T [A R]]]]]]; [lia|].
  unfold getBlogRank, tryCatch. fold (urlPatternOf blogId).
  unfold MAX_RESULTS. rewrite E.
  destruct res as [e|r].
  - fold (rankErrorLine keyword e). destruct logging; simpl.
    + exists (inl e), (record World (EvLog (rankErrorLine keyword e)) st1), calls.
      repeat split; auto. simpl. rewrite T. now rewrite <- app_assoc.
    + exists (inl e), st1, calls. repeat split; auto.
      simpl. now rewrite app_nil_r.
  - exists (inr r), st1, calls. repeat split; auto.
    simpl. now rewrite app_nil_r.
Qed.

(** The first page of a run, when the API answers it with [data]. *)
Lemma PageRun_first_page keyword urlPattern config start rank calls res
    (w w' w1 : World) (data : SearchData) :
  PageRun toLowerCase keyword urlPattern config start rank calls res ->
  Answers searchApi w calls w' ->
  (start <= 100)%Z ->
  searchApi (pageRequest keyword config start) w = (inr data, w1) ->
  (forall n,
      scanItems toLowerCase urlPattern rank (pageItems (inr data)) = Found n ->
      res = inr (Some n))
  /\ (forall rank',
        scanItems toLowerCase urlPattern rank (pageItems (inr data))
        = NotFound rank' ->
        (10 <= length (pageItems (inr data)))%nat ->
        exists calls',
          PageRun toLowerCase keyword urlPattern config (start + 10) rank'
            calls' res /\
          Answers searchApi w1 calls' w').
Proof.
  intros R A Hle Api.
  destruct R as [s r H0 | s r e H | s r d n H Sc | s r d r' H Sc L
                | s r d r' calls res H Sc L R]; [lia | ..];
    inversion A as [|? ? ? ? ? ? Api' A']; subst;
    rewrite Api in Api'.
  - discriminate.
  - injection Api' as <- <-. split; [intros n' Sc'; congruence|].
    intros r2 Sc' _. congruence.
  - injection Api' as <- <-. split; [intros n' Sc'; congruence|].
    intros r2 Sc' Hfull. lia.
  - injection Api' as <- <-. split; [intros n' Sc'; congruence|].
    intros r2 Sc' _. assert (r2 = r') as -> by congruence. eauto.
Qed.
End GetBlogRankFacts.

Section RankTheorems.
Variable World : Type.
Variable searchApi : SearchRequest -> World -> (JsError + SearchData) * World.
Variable toLowerCase : jsstring -> jsstring.

Lemma errorLog_searchCalls logging keyword res :
  searchCalls (errorLog logging keyword res) = [].
Proof. destruct res as [e|r]; [destruct logging|]; reflexivity. Qed.

Lemma trace_searchCalls calls logging keyword res :
  searchCalls (searchEvents calls ++ errorLog logging keyword res) = calls.
Proof.
  rewrite searchCalls_app, searchCalls_searchEvents, errorLog_searchCalls.
  apply app_nil_r.
Qed.

(** A run that returns null without an error ended on a short page or
    at the depth limit. *)
Lemma PageRun_none_reason keyword urlPattern config start rank calls :
  PageRun toLowerCase keyword urlPattern config start rank calls (inr None) ->
  (exists calls0 c, calls = calls0 ++ [c] /\ length (pageItems (snd c)) < 10)
  \/ (100 < start + 10 * Z.of_nat (length calls))%Z.
Proof.
  intros R. remember (inr None) as res eqn:E.
  induction R as [s r H0 | s r e H | s r d n H Sc | s r d r' H Sc L
                 | s r d r' calls res H Sc L R IH]; try discriminate.
  - right. simpl. lia.
  - left. exists [], (pageRequest keyword config s, inr d).
    split; [reflexivity | simpl snd; lia].
  - destruct (IH E) as [[calls0 [c [-> Hc]]] | Hd].
    + left. now exists ((pageRequest keyword config s, inr d) :: calls0), c.
    + right. simpl length. lia.
Qed.

(** C2, as amended: [getBlogRank] always returns (it never throws). It
    requests pages of 10 results at offsets 1, 11, 21, ..., at most ten
    pages, and goes on to the next page only after a page of at least 10
    items; over all items fetched, counted from 1 across pages, it
    returns the position of the first item for which the link directly
    followed by the owner link (a missing one counting as empty)
    contains blog.naver.com/blogId without regard to case, and null
    when there is none; a null result without a failed call means the
    last page was short or ten pages were scanned. When no page holds
    more than 10 items a rank lies between 1 and 100. A match at the
    10th item of the first page gives 10, a match at the 1st item of the
    second page gives 11. *)
Theorem getBlogRank_first_match (keyword blogId : jsstring)
    (config : Config) (logging : bool) (st : State World) :
  exists r st' tr,
    getBlogRank World searchApi toLowerCase keyword blogId config
      (sinkOption World logging) st = (inr r, st')
    /\ trace World st' = trace World st ++ tr
    /\ Answers searchApi (world World st) (searchCalls tr) (world World st')
    /\ map fst (searchCalls tr)
       = map (fun i => pageRequest keyword config (1 + 10 * Z.of_nat i)%Z)
           (seq 0 (length (searchCalls tr)))
    /\ 1 <= length (searchCalls tr) <= 10
    /\ (forall i c, nth_error (searchCalls tr) i = Some c ->
                    S i < length (searchCalls tr) ->
                    10 <= length (pageItems (snd c)))
    /\ firstMatchRank (itemMatches toLowerCase (urlPatternOf blogId))
         (scannedItems tr) r
    /\ (r = None ->
        (exists req e, In (req, inl e) (searchCalls tr))
        \/ (exists calls0 c, searchCalls tr = calls0 ++ [c] /\
                             length (pageItems (snd c)) < 10)
        \/ length (searchCalls tr) = 10)
    /\ (Forall (fun c => length (pageItems (snd c)) <= 10) (searchCalls tr) ->
        forall n, r = Some n -> (1 <= n <= 100)%Z)
    /\ (forall data w1 l it,
          searchApi (pageRequest keyword config 1) (world World st)
          = (inr data, w1) ->
          pageItems (inr data) = l ++ [it] -> length l = 9 ->
          Forall (fun x => itemMatches toLowerCase (urlPatternOf blogId) x
                           = false) l ->
          itemMatches toLowerCase (urlPatternOf blogId) it = true ->
          r = Some 10%Z)
    /\ (forall d1 w1 d2 w2 it rest,
          searchApi (pageRequest keyword config 1) (world World st)
          = (inr d1, w1) ->
          length (pageItems (inr d1)) = 10 ->
          Forall (fun x => itemMatches toLowerCase (urlPatternOf blogId) x
                           = false) (pageItems (inr d1)) ->
          searchApi (pageRequest keyword config 11) w1 = (inr d2, w2) ->
          pageItems (inr d2) = it :: rest ->
          itemMatches toLowerCase (urlPatternOf blogId) it = true ->
          r = Some 11%Z).
Proof.
  destruct (getBlogRank_run World searchApi toLowerCase keyword blogId
              config logging st) as [res [st' [calls [R [A [E T]]]]]].
  exists (rankOf res), st', (searchEvents calls ++ errorLog logging keyword res).
  unfold scannedItems. rewrite trace_searchCalls.
  pose proof (PageRun_scan _ _ _ _ _ _ _ _ R) as Sc.
  pose proof (PageRun_call_bound _ _ _ _ _ _ _ _ R) as Bd.
  pose proof (PageRun_nonempty _ _ _ _ _ _ _ _ R ltac:(lia)) as Ne.
  assert (1 <= length calls <= 10) as Hlen.
  { destruct Bd as [-> | Bd]; [congruence|].
    destruct calls; [congruence | simpl length in *; lia]. }
  split; [exact E|]. split; [exact T|]. split; [exact A|].
  split; [apply (PageRun_requests _ _ _ _ _ _ _ _ R)|].
  split; [exact Hlen|].
  split; [apply (PageRun_full_pages _ _ _ _ _ _ _ _ R)|].
  split.
  { destruct res as [e | [n|]]; simpl rankOf.
    - left. destruct Sc as [r' Sc]. split; [reflexivity|].
      now apply scanItems_NotFound in Sc.
    - right. apply scanItems_Found in Sc.
      destruct Sc as [l1 [it [l2 [E1 [F [M ->]]]]]].
      exists l1, it, l2. repeat split; auto.
    - left. destruct Sc as [r' Sc]. split; [reflexivity|].
      now apply scanItems_NotFound in Sc. }
  split.
  { intros Hnone. destruct res as [e | [n|]]; simpl in Hnone; try discriminate.
    - left. destruct (PageRun_thrown _ _ _ _ _ _ _ _ R) as [calls0 [req ->]].
      exists req, e. apply in_or_app. right. now left.
    - right. destruct (PageRun_none_reason _ _ _ _ _ _ R) as [H | H].
      + now left.
      + right. lia. }
  split.
  { intros Hsize n Hn. destruct res as [e | [m|]]; simpl in Hn; try discriminate.
    injection Hn as ->. apply scanItems_Found in Sc.
    destruct Sc as [l1 [it [l2 [E1 [_ [_ ->]]]]]].
    pose proof (callItems_length calls Hsize) as Hl.
    rewrite E1, length_app in Hl. simpl length in Hl. lia. }
  split.
  { intros data w1 l it Api Hitems Hl F M.
    destruct (PageRun_first_page World searchApi toLowerCase _ _ _ _ _ _ _
                _ _ w1 data R A ltac:(lia) Api) as [HF _].
    rewrite (HF 10%Z); [reflexivity|].
    apply scanItems_Found. exists l, it, []. repeat split; auto. lia. }
  intros d1 w1 d2 w2 it rest Api1 Hl1 F1 Api2 Hitems M.
  destruct (PageRun_first_page World searchApi toLowerCase _ _ _ _ _ _ _
              _ _ w1 d1 R A ltac:(lia) Api1) as [_ HN].
  destruct (HN 10%Z) as [calls' [R' A']].
  { apply scanItems_NotFound. split; [lia | assumption]. }
  { lia. }
  destruct (PageRun_first_page World searchApi toLowerCase _ _ _ _ _ _ _
              _ _ w2 d2 R' A' ltac:(lia) Api2) as [HF _].
  rewrite (HF 11%Z); [reflexivity|].
  apply scanItems_Found. exists [], it, rest. rewrite Hitems.
  repeat split; auto.
Qed.
End RankTheorems.

Lemma getBlogRank_first_match_witness :
  fst (getBlogRank Script scriptedSearch asciiLower (utf16 "맛집")
         (utf16 "myblog") sampleConfig (sinkOption Script false)
         (initial secondPageScript))
  = inr (Some 11%Z).
Proof.
  destruct (getBlogRank_first_match Script scriptedSearch asciiLower
              (utf16 "맛집") (utf16 "myblog") sampleConfig false
              (initial secondPageScript))
    as [r [st' [tr [E [_ [_ [_ [_ [_ [_ [_ [_ [_ H11]]]]]]]]]]]]].
  rewrite E. cbn [fst]. f_equal.
  eapply H11.
  - reflexivity.
  - reflexivity.
  - repeat constructor.
  - reflexivity.
  - reflexivity.
  - vm_compute. reflexivity.
Defined.

(** C2 as first stated fails: for an item whose link ends with
    https://blog.naver and whose owner link is .com/myblog, neither the link
    nor the owner link contains blog.naver.com/myblog, yet [getBlogRank]
    returns rank 1 for the blog myblog, because it searches the two
    strings joined. *)
Lemma getBlogRank_link_or_owner_counterexample :
  fst (getBlogRank Script scriptedSearch asciiLower (utf16 "맛집")
         (utf16 "myblog") sampleConfig (sinkOption Script false)
         (initial [pageOf [straddlingItem]]))
  = inr (Some 1%Z)
  /\ ~ firstMatchRank
         (linkOrOwnerContains asciiLower (urlPatternOf (utf16 "myblog")))
         (scannedItems
            (trace Script
               (snd (getBlogRank Script scriptedSearch asciiLower
                       (utf16 "맛집") (utf16 "myblog") sampleConfig
                       (sinkOption Script false)
                       (initial [pageOf [straddlingItem]])))))
         (Some 1%Z).
Proof.
  split; [vm_compute; reflexivity|].
  assert (scannedItems
            (trace Script
               (snd (getBlogRank Script scriptedSearch asciiLower
                       (utf16 "맛집") (utf16 "myblog") sampleConfig
                       (sinkOption Script false)
                       (initial [pageOf [straddlingItem]]))))
          = [straddlingItem]) as -> by (vm_compute; reflexivity).
  intros [[H _] | [l1 [it [l2 [E [F [M R]]]]]]]; [discriminate|].
  destruct l1 as [|x l1]; simpl in E.
  - injection E as <- <-. vm_compute in M. discriminate.
  - injection E as <- E. destruct l1; discriminate.
Qed.

(** ** The orchestrator *)

Section PipelineFacts.
Variable World : Type.
Variable searchApi : SearchRequest -> World -> (JsError + SearchData) * World.
Variable toLowerCase : jsstring -> jsstring.

Lemma continues_refl (st : State World) : continuesWithoutAds st st.
Proof. exists []. split; [now rewrite app_nil_r | reflexivity]. Qed.

Lemma continues_trans (st1 st2 st3 : State World) :
  continuesWithoutAds st1 st2 -> continuesWithoutAds st2 st3 ->
  continuesWithoutAds st1 st3.
Proof.
  intros [t1 [E1 A1]] [t2 [E2 A2]]. exists (t1 ++ t2). split.
  - rewrite E2, E1. now rewrite app_assoc.
  - unfold adsCalls in *. now rewrite flat_map_app, A1, A2.
Qed.

Lemma continues_log (st : State World) (msg : jsstring) :
  continuesWithoutAds st (record World (EvLog msg) st).
Proof. exists [EvLog msg]. split; reflexivity. Qed.

Lemma bind_logSink {B} (msg : jsstring) (k : unit -> M World B)
    (st : State World) :
  bind World (logSink World msg) k st = k tt (record World (EvLog msg) st).
Proof. reflexivity. Qed.

Lemma getBlogRank_continues (keyword blogId : jsstring) (config : Config)
    (st : State World) :
  exists r st',
    getBlogRank World searchApi toLowerCase keyword blogId config
      (Some (logSink World)) st = (inr r, st') /\
    continuesWithoutAds st st'.
Proof.
  destruct (getBlogRank_run World searchApi toLowerCase keyword blogId
              config true st) as [res [st' [calls [_ [_ [E T]]]]]].
  exists (rankOf res), st'. split; [exact E|].
  eexists. split; [exact T|].
  rewrite adsCalls_app, adsCalls_searchEvents.
  destruct res; reflexivity.
Qed.

Lemma probePool_run (blogId : jsstring) (config : Config)
    (pool : list jsstring) (ranks : list RankEntry) (st : State World) :
  exists probed st',
    probePool World searchApi toLowerCase blogId config (logSink World)
      pool ranks st = (inr (ranks ++ probed), st') /\
    map keyword probed = pool /\
    continuesWithoutAds st st'.
Proof.
  revert ranks st; induction pool as [|kw pool IH]; intros ranks st.
  - exists [], st. simpl. rewrite app_nil_r.
    repeat split. apply continues_refl.
  - cbn [probePool]. rewrite bind_logSink.
    match goal with
    | |- context [record World ?ev st] => set (st1 := record World ev st)
    end.
    destruct (getBlogRank_continues kw blogId config st1)
      as [r [st2 [E C2]]].
    unfold bind at 1. rewrite E. rewrite bind_logSink.
    match goal with
    | |- context [record World ?ev st2] => set (st3 := record World ev st2)
    end.
    destruct (IH (ranks ++ [{| keyword := kw; rank := r |}]) st3)
      as [probed [st4 [E4 [K C4]]]].
    exists ({| keyword := kw; rank := r |} :: probed), st4.
    split; [rewrite E4; now rewrite <- app_assoc|].
    split; [simpl; now rewrite K|].
    eapply continues_trans; [apply continues_log|].
    eapply continues_trans; [exact C2|].
    eapply continues_trans; [apply continues_log | exact C4].
Qed.

Lemma quiet_ret : quietUnit (ret World tt).
Proof. intros st. exists st. split; [reflexivity | apply continues_refl]. Qed.

Lemma quiet_log (msg : jsstring) : quietUnit (logSink World msg).
Proof.
  intros st. eexists. split; [reflexivity | apply continues_log].
Qed.

Lemma finish_run (m1 m2 : M World unit) (msg : jsstring)
    (res : AnalysisFinalResult) (st : State World) :
  quietUnit m1 -> quietUnit m2 ->
  exists st',
    bind World m1
      (fun _ => bind World m2
                  (fun _ => bind World (logSink World msg)
                              (fun _ => ret World res))) st
    = (inr res, st') /\
    continuesWithoutAds st st'.
Proof.
  intros Q1 Q2. destruct (Q1 st) as [st1 [E1 C1]].
  destruct (Q2 st1) as [st2 [E2 C2]].
  unfold bind at 1. rewrite E1. unfold bind at 1. rewrite E2.
  rewrite bind_logSink. eexists. split; [reflexivity|].
  eapply continues_trans; [exact C1|].
  eapply continues_trans; [exact C2 | apply continues_log].
Qed.

(** The orchestrator always returns, and its result is [resultOf] of the
    probe outcomes. *)
Lemma analyzeBlogPosts_run (title content blogId : jsstring)
    (config : Config) (st : State World) :
  exists titleRank ranks st',
    analyzeBlogPosts World searchApi toLowerCase title content blogId
      config (logSink World) st
    = (inr (resultOf title content titleRank ranks), st') /\
    map keyword ranks
    = mergeKeywordPool (extractHashtags content)
        (extractSmartKeywords title content (extractHashtags content)) /\
    continuesWithoutAds st st'.
Proof.
  unfold analyzeBlogPosts. rewrite !bind_logSink.
  match goal with
  | |- context [bind World (getBlogRank _ _ _ _ _ _ _) _ ?s] => set (st1 := s)
  end.
  assert (continuesWithoutAds st st1) as C1.
  { subst st1. eapply continues_trans; [apply continues_log|].
    eapply continues_trans; apply continues_log. }
  destruct (getBlogRank_continues title blogId config st1)
    as [titleRank [st2 [E2 C2]]].
  unfold bind at 1. rewrite E2. rewrite !bind_logSink.
  match goal with
  | |- context [bind World (probePool _ _ _ _ _ _ _ _) _ ?s] => set (st3 := s)
  end.
  assert (continuesWithoutAds st2 st3) as C3.
  { subst st3. eapply continues_trans; apply continues_log. }
  destruct (probePool_run blogId config
              (mergeKeywordPool (extractHashtags content)
                 (extractSmartKeywords title content (extractHashtags content)))
              [] st3) as [ranks [st4 [E4 [K C4]]]].
  unfold bind at 1. rewrite E4. cbn [app].
  fold (rankedEntries ranks). fold (selectBest ranks).
  fold (bestKeywordOf ranks). fold (bestRankOf ranks).
  assert (continuesWithoutAds st st4) as C.
  { eapply continues_trans; [exact C1|].
    eapply continues_trans; [exact C2|].
    eapply continues_trans; [exact C3 | exact C4]. }
  clearbody st1 st3. clear E2 E4 C1 C2 C3 C4.
  exists titleRank, ranks.
  match goal with
  | |- exists st', bind World ?m1
                     (fun _ => bind World ?m2
                                 (fun _ => bind World (logSink World ?msg) _))
                     st4 = _ /\ _ =>
    destruct (finish_run m1 m2 msg (resultOf title content titleRank ranks) st4)
      as [st' [E C']]
  end.
  - destruct (bestKeywordOf ranks) as [[|c k]|];
      auto using quiet_ret, quiet_log.
  - match goal with
    | |- quietUnit match ?l with _ => _ end =>
      destruct l; auto using quiet_ret, quiet_log
    end.
  - exists st'. split; [exact E|]. split; [exact K|].
    eapply continues_trans; [exact C | exact C'].
Qed.
End PipelineFacts.

(** ** Best-keyword selection *)

Lemma byRank_key (a b : RankEntry) :
  (byRank a b <= 0 <-> rankNum a <= rankNum b)%Z.
Proof. unfold byRank. lia. Qed.

Lemma filter_split {A} (f : A -> bool) (l l1 l2 : list A) (e : A) :
  filter f l = l1 ++ e :: l2 ->
  exists L1 L2, l = L1 ++ e :: L2 /\ filter f L1 = l1 /\ filter f L2 = l2.
Proof.
  revert l1; induction l as [|x l IH]; intros l1 H; simpl in H.
  - destruct l1; discriminate.
  - destruct (f x) eqn:F.
    + destruct l1 as [|y l1]; simpl in H; injection H as -> H.
      * exists [], l. simpl. auto.
      * destruct (IH l1 H) as [L1 [L2 [-> [E1 E2]]]].
        exists (y :: L1), L2. simpl. rewrite F, E1. auto.
    + destruct (IH l1 H) as [L1 [L2 [-> [E1 E2]]]].
      exists (x :: L1), L2. simpl. rewrite F. auto.
Qed.

Lemma Permutation_filter_both {A} (f : A -> bool) (l l' : list A) :
  Permutation l l' -> Permutation (filter f l) (filter f l').
Proof.
  induction 1 as [| x l l' _ IH | x y l | l l' l'' _ IH1 _ IH2]; simpl.
  - constructor.
  - destruct (f x); [now constructor | assumption].
  - destruct (f x), (f y); try reflexivity. apply perm_swap.
  - now transitivity (filter f l').
Qed.

Lemma StronglySorted_filter_keep {A} (R : A -> A -> Prop) (f : A -> bool)
    (l : list A) :
  StronglySorted R l -> StronglySorted R (filter f l).
Proof.
  induction 1 as [|x l _ IH Hx]; simpl; [constructor|].
  destruct (f x); [|assumption]. constructor; [assumption|].
  apply Forall_forall. intros y Hy. apply filter_In in Hy.
  rewrite Forall_forall in Hx. apply Hx. tauto.
Qed.

Lemma isRanked_Some (e : RankEntry) :
  isRanked e = true <-> exists r, rank e = Some r.
Proof.
  unfold isRanked. destruct (rank e) as [r|]; split; try discriminate; eauto.
  intros [r H]. discriminate.
Qed.

Lemma rankNum_Some (e : RankEntry) (r : Z) : rank e = Some r -> rankNum e = r.
Proof. unfold rankNum. now intros ->. Qed.

(** Without any ranked entry there is no best keyword. *)
Lemma selection_all_null (ranks : list RankEntry) :
  (forall e, In e ranks -> rank e = None) ->
  bestKeywordOf ranks = None /\ bestRankOf ranks = None /\
  otherGoodOf ranks = [].
Proof.
  intros H.
  assert (filter isRanked ranks = []) as E.
  { induction ranks as [|e l IH]; [reflexivity|]. simpl.
    unfold isRanked at 1. rewrite (H e) by now left.
    apply IH. intros x Hx. apply H. now right. }
  unfold bestKeywordOf, bestRankOf, otherGoodOf, selectBest, rankedEntries.
  rewrite E. simpl. auto.
Qed.

(** The best entry is the ranked entry of least rank, the earliest one
    among equals. *)
Lemma selection_best (ranks : list RankEntry) :
  (exists e, In e ranks /\ rank e <> None) ->
  exists l1 e l2 r,
    ranks = l1 ++ e :: l2 /\ rank e = Some r /\
    selectBest ranks = Some e /\
    (forall x rx, In x l1 -> rank x = Some rx -> r < rx)%Z /\
    (forall x rx, In x l2 -> rank x = Some rx -> r <= rx)%Z.
Proof.
  intros [e0 [HIn Hr]].
  unfold selectBest, rankedEntries.
  destruct (Array_sort byRank (filter isRanked ranks)) as [|e rest] eqn:S.
  - apply Array_sort_nil in S. exfalso.
    assert (In e0 (filter isRanked ranks)) as H.
    { apply filter_In. split; [assumption|]. unfold isRanked.
      destruct (rank e0); congruence. }
    rewrite S in H. destruct H.
  - destruct (Array_sort_head byRank rankNum byRank_key _ _ _ S)
      as [m1 [m2 [E [F1 F2]]]].
    destruct (filter_split _ _ _ _ _ E) as [L1 [L2 [-> [E1 E2]]]].
    assert (In e (filter isRanked (L1 ++ e :: L2))) as He
      by (rewrite E; apply in_or_app; right; now left).
    apply filter_In in He. destruct He as [_ He].
    apply isRanked_Some in He. destruct He as [r Hre].
    exists L1, e, L2, r. repeat split; auto.
    + intros x rx Hx Hrx. rewrite Forall_forall in F1.
      assert (In x m1) as Hm.
      { rewrite <- E1. apply filter_In. split; [assumption|].
        apply isRanked_Some. eauto. }
      specialize (F1 x Hm). rewrite (rankNum_Some _ _ Hre) in F1.
      now rewrite (rankNum_Some _ _ Hrx) in F1.
    + intros x rx Hx Hrx. rewrite Forall_forall in F2.
      assert (In x m2) as Hm.
      { rewrite <- E2. apply filter_In. split; [assumption|].
        apply isRanked_Some. eauto. }
      specialize (F2 x Hm). rewrite (rankNum_Some _ _ Hre) in F2.
      now rewrite (rankNum_Some _ _ Hrx) in F2.
Qed.

(** The other good keywords: the ranked entries that pass the test, in
    ascending rank order, equal ranks in the order of [ranks]. *)
Lemma selection_others (ranks : list RankEntry) :
  Permutation (otherGoodOf ranks)
    (filter (fun x => isRanked x && isOtherGood (bestKeywordOf ranks) x) ranks)
  /\ StronglySorted (fun a b => rankNum a <= rankNum b)%Z (otherGoodOf ranks)
  /\ (forall k,
        filter (fun x => rankNum x =? k)%Z (otherGoodOf ranks)
        = filter (fun x => rankNum x =? k)%Z
            (filter (fun x => isRanked x
                              && isOtherGood (bestKeywordOf ranks) x) ranks)).
Proof.
  unfold otherGoodOf, rankedEntries. repeat split.
  - rewrite <- filter_andb. apply Permutation_filter_both.
    apply (Array_sort_perm byRank).
  - apply StronglySorted_filter_keep.
    apply (Array_sort_sorted byRank rankNum byRank_key).
  - intros k. rewrite filter_filter_comm.
    rewrite (Array_sort_stable byRank rankNum byRank_key).
    rewrite <- filter_andb. apply filter_filter_comm.
Qed.

Lemma isOtherGood_spec (best : option jsstring) (x : RankEntry) (rx : Z) :
  rank x = Some rx ->
  (isOtherGood best x = true <-> (rx <= 10)%Z /\ Some (keyword x) <> best).
Proof.
  intros Hr. unfold isOtherGood. rewrite (rankNum_Some _ _ Hr).
  rewrite andb_true_iff, Z.leb_le. destruct best as [k|].
  - rewrite negb_true_iff, String_eqb_neq. split.
    + intros [N L]. split; [assumption | congruence].
    + intros [L N]. split; [congruence | assumption].
  - split; [intros [_ L]; split; [assumption | discriminate] | tauto].
Qed.

Section PipelineTheorems.
Variable World : Type.
Variable searchApi : SearchRequest -> World -> (JsError + SearchData) * World.
Variable toLowerCase : jsstring -> jsstring.

(** C1: [analyzeBlogPosts] builds [ranks] with one entry per pool member
    in pool order (so with pairwise different keywords). [bestKeyword]
    and [bestRank] are the keyword and rank of the entry with the least
    non-null rank, the earliest such entry in pool order when ranks tie.
    [otherGoodKeywords] holds exactly the entries with a non-null rank of
    at most 10 whose keyword is not the best keyword, in ascending rank
    order (equal ranks in pool order). If every rank is null,
    bestKeyword and bestRank are null and otherGoodKeywords is empty.
    For ranks [a:null, b:7, c:3] the best keyword is c with rank 3 and
    the other good keywords are [b:7]. *)
Theorem analyzeBlogPosts_best_keyword (title content blogId : jsstring)
    (config : Config) (st : State World) :
  exists result st',
    analyzeBlogPosts World searchApi toLowerCase title content blogId
      config (logSink World) st = (inr result, st')
    /\ map keyword (ranks result) = pool result
    /\ NoDup (map keyword (ranks result))
    /\ ((forall e, In e (ranks result) -> rank e = None) ->
        bestKeyword result = None /\ bestRank result = None /\
        otherGoodKeywords result = [])
    /\ ((exists e, In e (ranks result) /\ rank e <> None) ->
        exists l1 e l2 r,
          ranks result = l1 ++ e :: l2 /\ rank e = Some r /\
          bestKeyword result = Some (keyword e) /\
          bestRank result = Some r /\
          (forall x rx, In x l1 -> rank x = Some rx -> r < rx)%Z /\
          (forall x rx, In x l2 -> rank x = Some rx -> r <= rx)%Z)
    /\ (forall x,
          In x (otherGoodKeywords result) <->
          In x (ranks result) /\
          exists rx, rank x = Some rx /\ (rx <= 10)%Z /\
                     Some (keyword x) <> bestKeyword result)
    /\ Permutation (otherGoodKeywords result)
         (filter (fun x => isRanked x
                           && isOtherGood (bestKeyword result) x)
            (ranks result))
    /\ StronglySorted (fun a b => rankNum a <= rankNum b)%Z
         (otherGoodKeywords result)
    /\ (forall k,
          filter (fun x => rankNum x =? k)%Z (otherGoodKeywords result)
          = filter (fun x => rankNum x =? k)%Z
              (filter (fun x => isRanked x
                                && isOtherGood (bestKeyword result) x)
                 (ranks result)))
    /\ (bestKeywordOf exampleRanks = Some (utf16 "c") /\
        bestRankOf exampleRanks = Some 3%Z /\
        otherGoodOf exampleRanks
        = [{| keyword := utf16 "b"; rank := Some 7%Z |}]).
Proof.
  destruct (analyzeBlogPosts_run World searchApi toLowerCase title content
              blogId config st) as [tr [rs [st' [E [K _]]]]].
  exists (resultOf title content tr rs), st'.
  destruct (selection_others rs) as [P [S St]].
  cbn [resultOf ranks pool bestKeyword bestRank otherGoodKeywords].
  split; [exact E|]. split; [exact K|].
  split; [rewrite K; unfold mergeKeywordPool;
          rewrite Set_of_dedupFirst; apply dedupFirst_NoDup|].
  split; [apply selection_all_null|].
  split.
  { intros H. destruct (selection_best rs H)
      as [l1 [e [l2 [r [E1 [Hr [Sb [H1 H2]]]]]]]].
    exists l1, e, l2, r. unfold bestKeywordOf, bestRankOf. rewrite Sb.
    repeat split; auto. }
  split.
  { intros x.
    assert (In x (otherGoodOf rs) <->
            In x (filter (fun y => isRanked y
                                   && isOtherGood (bestKeywordOf rs) y) rs))
      as -> by (split; apply Permutation_in;
                [exact P | symmetry; exact P]).
    rewrite filter_In, andb_true_iff, isRanked_Some. split.
    - intros [HIn [[rx Hrx] G]]. split; [assumption|]. exists rx.
      split; [assumption|]. now apply (isOtherGood_spec _ x rx Hrx).
    - intros [HIn [rx [Hrx G]]]. split; [assumption|].
      split; [eauto|]. now apply (isOtherGood_spec _ x rx Hrx). }
  split; [exact P|]. split; [exact S|]. split; [exact St|].
  vm_compute. repeat split.
Qed.
End PipelineTheorems.

Section DegradationTheorems.
Variable World : Type.
Variable searchApi : SearchRequest -> World -> (JsError + SearchData) * World.
Variable toLowerCase : jsstring -> jsstring.

Lemma PageRun_first_error keyword urlPattern config start rank calls res
    (w w' w1 : World) (e : JsError) :
  PageRun toLowerCase keyword urlPattern config start rank calls res ->
  Answers searchApi w calls w' ->
  (start <= 100)%Z ->
  searchApi (pageRequest keyword config start) w = (inl e, w1) ->
  calls = [(pageRequest keyword config start, inl e)] /\ res = inl e /\
  w' = w1.
Proof.
  intros R A Hle Api.
  destruct R as [s r H0 | s r e' H | s r d n H Sc | s r d r' H Sc L
                | s r d r' calls res H Sc L R]; [lia | ..];
    inversion A as [|? ? ? ? ? ? Api' A']; subst;
    rewrite Api in Api'; try discriminate.
  injection Api' as <- <-. inversion A'; subst. auto.
Qed.

Lemma logLines_errorLog logging keyword res :
  logLines (errorLog logging keyword res)
  = match res with
    | inl e => if logging then [rankErrorLine keyword e] else []
    | inr _ => []
    end.
Proof. destruct res as [e|r]; [destruct logging|]; reflexivity. Qed.

(** C6: [getBlogRank] always returns and never throws. When a call to
    the search API raises an error, that call is the last one, the
    result is null, and exactly one line, naming the keyword and the
    error, goes to the sink (none when the caller passed no sink);
    without a failed call nothing is logged. In particular a failure of
    the first call yields null after that single call. The orchestrator
    therefore always completes with one rank entry per pool member,
    whatever the search API does. *)
Theorem getBlogRank_error_degrades (keyword blogId : jsstring)
    (config : Config) (logging : bool) (st : State World) :
  exists r st' tr,
    getBlogRank World searchApi toLowerCase keyword blogId config
      (sinkOption World logging) st = (inr r, st')
    /\ trace World st' = trace World st ++ tr
    /\ (forall req e, In (req, inl e) (searchCalls tr) ->
          r = None
          /\ (exists calls0,
                 tr = searchEvents (calls0 ++ [(req, inl e)])
                      ++ (if logging then [EvLog (rankErrorLine keyword e)]
                          else []))
          /\ logLines tr
             = if logging then [rankErrorLine keyword e] else [])
    /\ ((forall req e, ~ In (req, inl e) (searchCalls tr)) ->
        logLines tr = [])
    /\ (forall e w1,
          searchApi (pageRequest keyword config 1) (world World st)
          = (inl e, w1) ->
          r = None /\ world World st' = w1 /\
          tr = EvSearch (pageRequest keyword config 1) (inl e)
               :: (if logging then [EvLog (rankErrorLine keyword e)]
                   else []))
    /\ (forall title content,
          exists result st2,
            analyzeBlogPosts World searchApi toLowerCase title content
              blogId config (logSink World) st = (inr result, st2)
            /\ length (ranks result) = length (pool result)).
Proof.
  destruct (getBlogRank_run World searchApi toLowerCase keyword blogId
              config logging st) as [res [st' [calls [R [A [E T]]]]]].
  exists (rankOf res), st', (searchEvents calls ++ errorLog logging keyword res).
  rewrite trace_searchCalls.
  split; [exact E|]. split; [exact T|].
  split.
  { intros req e HIn.
    destruct (PageRun_error_last _ _ _ _ _ _ _ _ _ _ R HIn) as [-> [calls0 ->]].
    split; [reflexivity|]. split; [now exists calls0|].
    rewrite logLines_app, logLines_searchEvents, logLines_errorLog.
    reflexivity. }
  split.
  { intros Hno. rewrite logLines_app, logLines_searchEvents, logLines_errorLog.
    destruct res as [e|r]; [|reflexivity].
    destruct (PageRun_thrown _ _ _ _ _ _ _ _ R) as [calls0 [req ->]].
    exfalso. apply (Hno req e). apply in_or_app. right. now left. }
  split.
  { intros e w1 Api.
    destruct (PageRun_first_error _ _ _ _ _ _ _ _ _ w1 e R A ltac:(lia) Api)
      as [-> [-> ->]].
    repeat split. }
  intros title content.
  destruct (analyzeBlogPosts_run World searchApi toLowerCase title content
              blogId config st) as [tr [rs [st2 [E2 [K _]]]]].
  exists (resultOf title content tr rs), st2. split; [exact E2|].
  cbn [resultOf ranks pool]. rewrite <- K. now rewrite length_map.
Qed.

End DegradationTheorems.

(** ** Search volume is never looked up by the orchestrator *)

Section VolumeTheorems.
Variable World : Type.
Variable searchApi : SearchRequest -> World -> (JsError + SearchData) * World.
Variable adsApi : AdsRequest -> World -> (JsError + AdsData) * World.
Variable dateNow : World -> Z * World.
Variable toLowerCase : jsstring -> jsstring.
Variable StringToNumber : jsstring -> float.
Variable hmacSha256Base64 : jsstring -> jsstring -> jsstring.

(** With complete credentials [getSearchVolume] sends exactly one request
    to the ads API, and returns. *)
Lemma getSearchVolume_calls_ads (keyword : jsstring) (config : Config)
    (st : State World) :
  isEmptyString (licenseKey (searchAds config)) = false ->
  isEmptyString (secretKey (searchAds config)) = false ->
  isEmptyString (customerId (searchAds config)) = false ->
  exists r st' tr req,
    getSearchVolume World adsApi dateNow StringToNumber hmacSha256Base64
      keyword config (Some (logSink World)) st = (inr r, st')
    /\ trace World st' = trace World st ++ tr
    /\ adsCalls tr = [req]
    /\ hintKeywords req = keyword.
Proof.
  intros H1 H2 H3. unfold getSearchVolume, bind at 1, DateNow.
  destruct (dateNow (world World st)) as [t w] eqn:D.
  rewrite H1, H2, H3. cbn [orb].
  unfold tryCatch, bind at 1, axiosGetAds. cbn [world trace].
  match goal with
  | |- context [adsApi ?rq w] =>
    set (req := rq); destruct (adsApi req w) as [[e|data] w2] eqn:Api
  end.
  - eexists None, _, _, req. split; [reflexivity|].
    cbn [record trace]. rewrite <- app_assoc.
    split; [reflexivity|]. split; reflexivity.
  - destruct (keywordList data) as [[|k kl]|].
    + eexists None, _, _, req. split; [reflexivity|].
      cbn [record trace]. rewrite <- app_assoc.
      split; [reflexivity|]. split; reflexivity.
    + eexists (Some _), _, _, req. split; [reflexivity|].
      cbn [trace]. split; [reflexivity|]. split; reflexivity.
    + eexists None, _, _, req. split; [reflexivity|].
      cbn [record trace]. rewrite <- app_assoc.
      split; [reflexivity|]. split; reflexivity.
Qed.

(** C10: whatever the inputs and whatever the search API does,
    [analyzeBlogPosts] returns a result whose searchVolume is null, and
    the run sends no request to the ads API: the enricher
    [getSearchVolume], which with complete credentials always sends one,
    is not part of the run. *)
Theorem analyzeBlogPosts_searchVolume_null (title content blogId : jsstring)
    (config : Config) (st : State World) :
  exists result st' tr,
    analyzeBlogPosts World searchApi toLowerCase title content blogId
      config (logSink World) st = (inr result, st')
    /\ trace World st' = trace World st ++ tr
    /\ searchVolume result = None
    /\ adsCalls tr = []
    /\ (isEmptyString (licenseKey (searchAds config)) = false ->
        isEmptyString (secretKey (searchAds config)) = false ->
        isEmptyString (customerId (searchAds config)) = false ->
        forall keyword st0,
        exists r st1 tr1 req,
          getSearchVolume World adsApi dateNow StringToNumber
            hmacSha256Base64 keyword config (Some (logSink World)) st0
          = (inr r, st1)
          /\ trace World st1 = trace World st0 ++ tr1
          /\ adsCalls tr1 = [req]).
Proof.
  destruct (analyzeBlogPosts_run World searchApi toLowerCase title content
              blogId config st) as [tr [rs [st' [E [_ [t [T A]]]]]]].
  exists (resultOf title content tr rs), st', t.
  split; [exact E|]. split; [exact T|]. split; [reflexivity|].
  split; [exact A|].
  intros H1 H2 H3 keyword st0.
  destruct (getSearchVolume_calls_ads keyword config st0 H1 H2 H3)
    as [r [st1 [tr1 [req [E1 [T1 [A1 _]]]]]]].
  now exists r, st1, tr1, req.
Qed.
End VolumeTheorems.

(** ** Sample runs *)

Lemma analyzeBlogPosts_best_keyword_witness :
  exists result,
    fst (analyzeBlogPosts Script scriptedSearch asciiLower (utf16 "강남 맛집")
           [] (utf16 "myblog") sampleConfig (logSink Script)
           (initial tieScript)) = inr result
    /\ pool result = [utf16 "강남"; utf16 "맛집"; utf16 "강남 맛집"]
    /\ map rank (ranks result) = [None; Some 2%Z; Some 2%Z]
    /\ bestKeyword result = Some (utf16 "맛집")
    /\ bestRank result = Some 2%Z
    /\ otherGoodKeywords result
       = [{| keyword := utf16 "강남 맛집"; rank := Some 2%Z |}].
Proof.
  destruct (analyzeBlogPosts_best_keyword Script scriptedSearch asciiLower
              (utf16 "강남 맛집") [] (utf16 "myblog") sampleConfig
              (initial tieScript)) as [result [st' [E _]]].
  exists result. rewrite E. split; [reflexivity|].
  assert (inr result
          = fst (analyzeBlogPosts Script scriptedSearch asciiLower
                   (utf16 "강남 맛집") [] (utf16 "myblog") sampleConfig
                   (logSink Script) (initial tieScript))) as V
    by (rewrite E; reflexivity).
  vm_compute in V. injection V as ->. vm_compute. repeat split.
Defined.

Lemma getBlogRank_error_degrades_witness :
  fst (getBlogRank Script scriptedSearch asciiLower (utf16 "맛집")
         (utf16 "myblog") sampleConfig (sinkOption Script true)
         (initial failingScript)) = inr None
  /\ logLines
       (trace Script
          (snd (getBlogRank Script scriptedSearch asciiLower (utf16 "맛집")
                  (utf16 "myblog") sampleConfig (sinkOption Script true)
                  (initial failingScript))))
     = [rankErrorLine (utf16 "맛집") networkError].
Proof.
  destruct (getBlogRank_error_degrades Script scriptedSearch asciiLower
              (utf16 "맛집") (utf16 "myblog") sampleConfig true
              (initial failingScript)) as [r [st' [tr [E [T [H _]]]]]].
  assert (st' = snd (getBlogRank Script scriptedSearch asciiLower
                       (utf16 "맛집") (utf16 "myblog") sampleConfig
                       (sinkOption Script true) (initial failingScript)))
    as Hst by (rewrite E; reflexivity).
  assert (tr = trace Script st') as Htr by (rewrite T; reflexivity).
  destruct (H (pageRequest (utf16 "맛집") sampleConfig 11) networkError)
    as [Hr [_ Hl]].
  { rewrite Htr, Hst. vm_compute. right. left. reflexivity. }
  rewrite E. cbn [fst snd]. split; [now rewrite Hr|].
  now rewrite <- Htr.
Defined.


Lemma analyzeBlogPosts_searchVolume_null_witness :
  (exists result,
      fst (analyzeBlogPosts Script scriptedSearch asciiLower (utf16 "맛집") []
             (utf16 "myblog") adsConfig (logSink Script)
             (initial titleFoundScript)) = inr result
      /\ searchVolume result = None)
  /\ (exists req,
         adsCalls
           (trace Script
              (snd (getSearchVolume Script scriptedAds scriptedClock
                      decimalStringToNumber noHmac (utf16 "맛집") adsConfig
                      (Some (logSink Script)) (initial []))))
         = [req]).
Proof.
  destruct (analyzeBlogPosts_searchVolume_null Script scriptedSearch
              scriptedAds scriptedClock asciiLower decimalStringToNumber
              noHmac (utf16 "맛집") [] (utf16 "myblog") adsConfig
              (initial titleFoundScript))
    as [result [st' [tr [E [_ [V [_ G]]]]]]].
  split.
  - exists result. rewrite E. split; [reflexivity | exact V].
  - destruct (G eq_refl eq_refl eq_refl (utf16 "맛집") (initial []))
      as [r [st1 [tr1 [req [E1 [T1 A1]]]]]].
    exists req. rewrite E1. cbn [snd]. rewrite T1. exact A1.
Defined.

(** * Further properties of the keyword analyzer *)

(** ** The candidate pool *)

Lemma Array_includes_Set_of (xs : list jsstring) (y : jsstring) :
  Array_includes (Set_of xs) y = Array_includes xs y.
Proof.
  destruct (Array_includes xs y) eqn:E.
  - apply Array_includes_In. rewrite Set_of_dedupFirst, dedupFirst_In.
    now apply Array_includes_In.
  - apply Array_includes_not_In. rewrite Set_of_dedupFirst, dedupFirst_In.
    now apply Array_includes_not_In.
Qed.

Lemma mergeKeywordPool_split (hashtags smartKeywords : list jsstring) :
  mergeKeywordPool hashtags smartKeywords
  = dedupFirst hashtags
    ++ dedupFirst
         (filter (fun k => negb (Array_includes hashtags k)) smartKeywords).
Proof.
  unfold mergeKeywordPool. rewrite <- fold_Set_add_Set_of, fold_Set_add.
  rewrite Set_of_dedupFirst. do 2 f_equal. apply filter_ext. intros k.
  now rewrite <- Set_of_dedupFirst, Array_includes_Set_of.
Qed.

(** X1: [mergeKeywordPool] returns a list without duplicates that holds
    exactly the hashtags and the smart keywords; the hashtags come first,
    each at its first occurrence, followed by the smart keywords that are
    no hashtags. Hashtags without duplicates are a prefix of the pool, and
    merging with nothing new returns them unchanged. *)
Theorem mergeKeywordPool_union (hashtags smartKeywords : list jsstring) :
  NoDup (mergeKeywordPool hashtags smartKeywords)
  /\ (forall k, In k (mergeKeywordPool hashtags smartKeywords) <->
                In k hashtags \/ In k smartKeywords)
  /\ mergeKeywordPool hashtags smartKeywords
     = dedupFirst hashtags
       ++ dedupFirst
            (filter (fun k => negb (Array_includes hashtags k)) smartKeywords)
  /\ (NoDup hashtags ->
      firstn (length hashtags) (mergeKeywordPool hashtags smartKeywords)
      = hashtags)
  /\ (NoDup hashtags ->
      (forall k, In k smartKeywords -> In k hashtags) ->
      mergeKeywordPool hashtags smartKeywords = hashtags).
Proof.
  split; [unfold mergeKeywordPool; rewrite Set_of_dedupFirst;
          apply dedupFirst_NoDup|].
  split; [intros k; unfold mergeKeywordPool;
          rewrite Set_of_dedupFirst, dedupFirst_In; apply in_app_iff|].
  split; [apply mergeKeywordPool_split|].
  split.
  - intros ND. rewrite mergeKeywordPool_split, dedupFirst_NoDup_id by assumption.
    rewrite firstn_app, firstn_all, Nat.sub_diag, firstn_O. apply app_nil_r.
  - intros ND Sub. rewrite mergeKeywordPool_split, dedupFirst_NoDup_id
      by assumption.
    replace (filter _ smartKeywords) with (@nil jsstring);
      [apply app_nil_r|].
    symmetry. induction smartKeywords as [|k l IH]; [reflexivity|].
    simpl. assert (Array_includes hashtags k = true) as ->
      by (apply Array_includes_In, Sub; now left).
    simpl. apply IH. intros x Hx. apply Sub. now right.
Qed.

Lemma mergeKeywordPool_union_witness :
  mergeKeywordPool [utf16 "a"; utf16 "b"] [utf16 "b"; utf16 "a"]
  = [utf16 "a"; utf16 "b"].
Proof.
  apply (proj2 (proj2 (proj2 (proj2
           (mergeKeywordPool_union [utf16 "a"; utf16 "b"]
              [utf16 "b"; utf16 "a"]))))).
  - repeat constructor; simpl; intuition discriminate.
  - simpl. intuition.
Defined.

(** X2: in the orchestrator the pool is built from the hashtags of the
    content and the smart keywords computed from them. The smart keywords
    are then the first five hashtags followed by derived keywords, and the
    pool is all hashtags followed by these same derived keywords, none of
    which is a hashtag. So the pool has at most five entries more than
    there are hashtags (and at most five in all when there are at most five
    hashtags), and with five or more hashtags nothing is derived: the pool
    is the hashtag list itself. *)
Theorem pool_hashtags_then_derived (title content : jsstring) :
  exists derived,
    extractSmartKeywords title content (extractHashtags content)
    = firstn 5 (extractHashtags content) ++ derived
    /\ mergeKeywordPool (extractHashtags content)
         (extractSmartKeywords title content (extractHashtags content))
       = extractHashtags content ++ derived
    /\ (forall d, In d derived -> ~ In d (extractHashtags content))
    /\ NoDup derived
    /\ length derived <= 5 - length (extractHashtags content)
    /\ (5 <= length (extractHashtags content) ->
        mergeKeywordPool (extractHashtags content)
          (extractSmartKeywords title content (extractHashtags content))
        = extractHashtags content).
Proof.
  set (h := extractHashtags content).
  assert (NoDup h) as ND
    by (subst h; rewrite extractHashtags_tokens; apply dedupFirst_NoDup).
  set (rest := map fst (Array_sort byScoreDesc (scoredNouns title content))
               ++ extractTitleNgrams title).
  set (D := dedupFirst (filter (fun y => negb (Array_includes h y)) rest)).
  assert (extractSmartKeywords title content h
          = firstn 5 h ++ firstn (5 - length h) D) as ES.
  { rewrite extractSmartKeywords_firstn. fold rest.
    rewrite <- Set_of_dedupFirst, <- fold_Set_add_Set_of, fold_Set_add.
    rewrite !Set_of_dedupFirst, dedupFirst_NoDup_id by assumption.
    rewrite firstn_app. reflexivity. }
  assert (forall d, In d (firstn (5 - length h) D) -> ~ In d h) as Hnot.
  { intros d Hd. apply In_prefix in Hd. subst D.
    rewrite dedupFirst_In, filter_In in Hd. destruct Hd as [_ Hd].
    now rewrite negb_true_iff, Array_includes_not_In in Hd. }
  assert (NoDup (firstn (5 - length h) D)) as NDd
    by (apply NoDup_prefix; subst D; apply dedupFirst_NoDup).
  assert (mergeKeywordPool h (extractSmartKeywords title content h)
          = h ++ firstn (5 - length h) D) as MP.
  { rewrite mergeKeywordPool_split, ES, dedupFirst_NoDup_id by assumption.
    f_equal. rewrite filter_app.
    replace (filter _ (firstn 5 h)) with (@nil jsstring).
    - simpl. rewrite forallb_filter_id; [now apply dedupFirst_NoDup_id|].
      apply forallb_forall. intros d Hd.
      rewrite negb_true_iff, Array_includes_not_In. now apply Hnot.
    - symmetry. rewrite <- (filter_false (firstn 5 h)).
      apply filter_ext_in. intros x Hx. apply In_prefix in Hx.
      apply negb_false_iff. now apply Array_includes_In. }
  exists (firstn (5 - length h) D).
  split; [exact ES|]. split; [exact MP|]. split; [exact Hnot|].
  split; [exact NDd|]. split; [apply firstn_le_length|].
  intros H5. rewrite MP. replace (5 - length h) with 0 by lia.
  rewrite firstn_O. apply app_nil_r.
Qed.

(** ** Particle stripping keeps a long enough Hangul prefix *)

Lemma stripParticles_suffix (w : jsstring) :
  exists p, w = stripParticles w ++ p /\
            (p = [] \/ (In p PARTICLES /\ 2 <= length (stripParticles w))).
Proof.
  destruct (stripLoop_first PARTICLES w PARTICLES_nonempty)
    as [[i [p [r [Hn [-> [H2 [E _]]]]]]] | [_ E]].
  - exists p. unfold stripParticles. rewrite E. split; [reflexivity|].
    right. split; [|assumption]. eapply nth_error_In; eauto.
  - exists []. unfold stripParticles. rewrite E, app_nil_r. auto.
Qed.

Lemma PARTICLES_short : Forall (fun p : jsstring => 1 <= length p <= 2) PARTICLES.
Proof. repeat constructor. Qed.

(** X4: [stripParticles] returns a prefix of the word: what it removes
    is nothing or one listed particle, so at most two code units. A word
    of at most two code units is returned unchanged, a longer word never
    becomes shorter than two code units, and a word of Hangul syllables
    stays one. *)
Theorem stripParticles_prefix (w : jsstring) :
  (exists p, w = stripParticles w ++ p /\ (p = [] \/ In p PARTICLES))
  /\ length w - 2 <= length (stripParticles w) <= length w
  /\ (length w <= 2 -> stripParticles w = w)
  /\ (2 <= length w -> 2 <= length (stripParticles w))
  /\ (forallb isHangul w = true -> forallb isHangul (stripParticles w) = true).
Proof.
  destruct (stripParticles_suffix w) as [p [E Hp]].
  assert (length w = length (stripParticles w) + length p) as L
    by (rewrite E at 1; apply length_app).
  assert (length p <= 2) as Lp.
  { destruct Hp as [-> | [Hp _]]; [simpl; lia|].
    pose proof PARTICLES_short as S. rewrite Forall_forall in S.
    apply S in Hp. lia. }
  split; [exists p; split; [exact E | tauto]|].
  split; [lia|].
  split.
  { intros Hw. destruct Hp as [-> | [Hp H2]].
    - rewrite app_nil_r in E. now symmetry.
    - pose proof PARTICLES_short as S. rewrite Forall_forall in S.
      apply S in Hp. lia. }
  split.
  { intros Hw. destruct Hp as [-> | [_ H2]]; [simpl in L; lia | exact H2]. }
  intros H. rewrite E, forallb_app in H. now apply andb_true_iff in H.
Qed.

Lemma stripParticles_prefix_witness :
  stripParticles (utf16 "우리") = utf16 "우리".
Proof.
  apply (proj1 (proj2 (proj2 (stripParticles_prefix (utf16 "우리"))))).
  simpl. lia.
Defined.

(** ** The frequency map of [extractNouns] *)

Lemma matchHangulRuns_runs (skip : nat) (s : jsstring) :
  Forall (fun r => 2 <= length r /\ forallb isHangul r = true)
    (matchHangulRuns skip s).
Proof.
  revert skip; induction s as [|c s IH]; intros skip; [constructor|].
  cbn [matchHangulRuns]. destruct skip as [|k]; [|apply IH].
  destruct (Nat.leb_spec 2 (length (takeWhile isHangul (c :: s)))).
  - constructor; [|apply IH]. split; [assumption|].
    apply takeWhile_forallb.
  - apply IH.
Qed.

Lemma nounWords_shape (text w : jsstring) :
  In w (nounWords text) ->
  2 <= length w /\ forallb isHangul w = true /\
  Array_includes STOPWORDS w = false.
Proof.
  unfold nounWords. rewrite filter_In, in_map_iff, negb_true_iff, orb_false_iff.
  intros [[raw [<- Hraw]] [Hlen Hstop]].
  apply Nat.ltb_ge in Hlen. split; [assumption|]. split; [|assumption].
  pose proof (matchHangulRuns_runs 0 text) as R. rewrite Forall_forall in R.
  apply (stripParticles_prefix raw). now apply R.
Qed.

Lemma sumCounts_set (m : Map Z) (k : jsstring) (v : Z) :
  sumCounts (Map_set m k v) = (sumCounts m - getOr0 m k + v)%Z.
Proof.
  unfold sumCounts, getOr0. induction m as [|[k' v'] m IH]; simpl.
  - lia.
  - destruct (String_eqb k' k); simpl; [lia|]. rewrite IH. lia.
Qed.

Lemma sumCounts_fold_bump (ws : list jsstring) (m : Map Z) :
  sumCounts (fold_left bump ws m) = (sumCounts m + Z.of_nat (length ws))%Z.
Proof.
  revert m; induction ws as [|w ws IH]; intros m; simpl fold_left.
  - simpl. lia.
  - rewrite IH. unfold bump. rewrite sumCounts_set. simpl length. lia.
Qed.

Lemma matchHangulRuns_none (skip : nat) (s : jsstring) :
  forallb (fun c => negb (isHangul c)) s = true ->
  matchHangulRuns skip s = [].
Proof.
  revert skip; induction s as [|c s IH]; intros skip H; [reflexivity|].
  simpl in H. apply andb_true_iff in H. destruct H as [Hc Hs].
  cbn [matchHangulRuns takeWhile]. apply negb_true_iff in Hc. rewrite Hc.
  destruct skip; now apply IH.
Qed.

(** X3: the map [extractNouns] returns has pairwise different keys, in
    the order in which the counted words first occur in the text; a word
    is a key exactly when it occurs among the counted words, and its value
    is the number of its occurrences (so every value is positive and the
    values add up to the number of counted words). Every key has at least
    two code units, all Hangul syllables, and is no stop word. A text
    without Hangul syllables gives the empty map. *)
Theorem extractNouns_frequency_map (text : jsstring) :
  NoDup (map fst (extractNouns text))
  /\ map fst (extractNouns text) = dedupFirst (nounWords text)
  /\ (forall w n, In (w, n) (extractNouns text) <->
                  n = frequency text w /\ (0 < n)%Z)
  /\ (forall w, Map_get (extractNouns text) w = None <->
                ~ In w (nounWords text))
  /\ (forall w n, In (w, n) (extractNouns text) ->
                  2 <= length w /\ forallb isHangul w = true /\
                  Array_includes STOPWORDS w = false)
  /\ sumCounts (extractNouns text) = Z.of_nat (length (nounWords text))
  /\ (forallb (fun c => negb (isHangul c)) text = true ->
      extractNouns text = []).
Proof.
  split; [rewrite extractNouns_keys; apply dedupFirst_NoDup|].
  split; [apply extractNouns_keys|].
  split; [intros w n; apply extractNouns_In|].
  split.
  { intros w. rewrite extractNouns_get. unfold frequency.
    rewrite (count_occ_not_In (list_eq_dec N.eq_dec)).
    destruct (count_occ (list_eq_dec N.eq_dec) (nounWords text) w) eqn:C.
    - simpl. tauto.
    - destruct (Z.eqb_spec (Z.of_nat (S n)) 0); [lia|].
      split; [discriminate | intros; lia]. }
  split.
  { intros w n H. apply (nounWords_shape text).
    rewrite <- dedupFirst_In, <- extractNouns_keys.
    apply in_map_iff. now exists (w, n). }
  split; [rewrite extractNouns_fold, sumCounts_fold_bump; reflexivity|].
  intros H. unfold extractNouns. now rewrite matchHangulRuns_none.
Qed.

Lemma extractNouns_frequency_map_witness :
  extractNouns (utf16 "2024 best #1!") = [].
Proof.
  apply (proj2 (proj2 (proj2 (proj2 (proj2 (proj2
           (extractNouns_frequency_map (utf16 "2024 best #1!")))))))).
  vm_compute. reflexivity.
Defined.

(** ** Title tokens and n-grams *)

Lemma splitLoop_chars (R : jschar -> Prop) (cur : jsstring) (inRun : bool)
    (s : jsstring) :
  (forall c, In c cur -> R c) ->
  (forall c, In c s -> isSpace c = false -> R c) ->
  forall piece, In piece (splitLoop cur inRun s) ->
                forall c, In c piece -> R c.
Proof.
  revert cur inRun; induction s as [|x s IH]; intros cur inRun Hcur Hs piece.
  - simpl. intros [<- | []]. exact Hcur.
  - cbn [splitLoop]. destruct (isSpace x) eqn:X.
    + destruct inRun.
      * apply IH; [exact Hcur | intros c Hc; apply Hs; now right].
      * intros [<- | H]; [exact Hcur|]. revert H.
        apply IH; [intros c [] | intros c Hc; apply Hs; now right].
    + apply IH.
      * intros c Hc. apply in_app_or in Hc. destruct Hc as [Hc | [<- | []]].
        -- now apply Hcur.
        -- apply Hs; [now left | exact X].
      * intros c Hc. apply Hs. now right.
Qed.

Lemma titleTokens_shape (title t : jsstring) :
  In t (titleTokens title) ->
  2 <= length t /\ forallb isWordChar t = true.
Proof.
  unfold titleTokens. rewrite filter_In, in_map_iff.
  intros [[piece [<- Hp]] Hlen]. apply Nat.leb_le in Hlen.
  split; [assumption|].
  assert (forallb isWordChar piece = true) as Hw.
  { apply forallb_forall. intros c Hc. clear Hlen. revert piece Hp c Hc.
    unfold splitSpaces. apply splitLoop_chars; [intros c [] |].
    intros c Hc Hns. apply in_map_iff in Hc. destruct Hc as [x [<- _]].
    destruct (isTitleChar x) eqn:T; [|discriminate].
    unfold isTitleChar in T. rewrite Hns in T. exact T. }
  destruct (stripParticles_prefix piece) as [[p [E _]] _].
  rewrite E, forallb_app in Hw. now apply andb_true_iff in Hw.
Qed.

Lemma ngramLoop_length (tokens : list jsstring) :
  length (ngramLoop tokens) = 2 * length tokens - 3.
Proof.
  induction tokens as [|a [|b [|c rest]] IH]; try reflexivity.
  cbn [ngramLoop] in *. cbn [length app] in *. rewrite IH. lia.
Qed.

Lemma ngramLoop_In (tokens : list jsstring) (g : jsstring) :
  In g (ngramLoop tokens) <->
  exists pre a b post,
    tokens = pre ++ a :: b :: post /\
    (g = a ++ SPACE ++ b
     \/ exists c post', post = c :: post' /\
                        g = a ++ SPACE ++ b ++ SPACE ++ c).
Proof.
  induction tokens as [|a tl IH].
  - simpl. split; [tauto|]. intros [pre [a [b [post [E _]]]]].
    destruct pre; discriminate.
  - destruct tl as [|b rest].
    + simpl. split; [tauto|]. intros [pre [x [y [post [E _]]]]].
      destruct pre as [|? [|? ?]]; discriminate.
    + change (ngramLoop (a :: b :: rest))
        with ((a ++ SPACE ++ b)
                :: match rest with
                   | c :: _ => [a ++ SPACE ++ b ++ SPACE ++ c]
                   | [] => []
                   end ++ ngramLoop (b :: rest)).
      cbn [In]. rewrite in_app_iff, IH. split.
      * intros [<- | [H | [pre [x [y [post [E H]]]]]]].
        -- exists [], a, b, rest. split; [reflexivity | now left].
        -- destruct rest as [|c rest']; [destruct H|].
           destruct H as [<- | []]. exists [], a, b, (c :: rest').
           split; [reflexivity|]. right. now exists c, rest'.
        -- exists (a :: pre), x, y, post. split; [simpl; now rewrite E | exact H].
      * intros [[|a' pre] [x [y [post [E H]]]]]; simpl in E.
        -- injection E as <- <- <-. destruct H as [-> | [c [post' [-> ->]]]].
           ++ now left.
           ++ right. left. now left.
        -- injection E as <- E. right. right. now exists pre, x, y, post.
Qed.

Lemma isWordChar_not_space (t : jsstring) :
  forallb isWordChar t = true -> ~ In 32%N t.
Proof.
  intros H HIn. rewrite forallb_forall in H. specialize (H _ HIn). discriminate.
Qed.

(** X5: the tokens of a title have at least two code units each, all of
    them Hangul syllables, Latin letters or digits. From n tokens
    [extractTitleNgrams] makes 2n-3 phrases (none from fewer than two
    tokens): exactly the pairs and triples of neighbouring tokens, joined
    by single spaces. Every phrase therefore contains a space, so it is
    never equal to a hashtag or to a counted noun. *)
Theorem extractTitleNgrams_neighbours (title : jsstring) :
  (forall t, In t (titleTokens title) ->
             2 <= length t /\ forallb isWordChar t = true)
  /\ length (extractTitleNgrams title) = 2 * length (titleTokens title) - 3
  /\ (length (titleTokens title) <= 1 -> extractTitleNgrams title = [])
  /\ (forall g,
        In g (extractTitleNgrams title) <->
        exists pre a b post,
          titleTokens title = pre ++ a :: b :: post /\
          (g = a ++ SPACE ++ b
           \/ exists c post', post = c :: post' /\
                              g = a ++ SPACE ++ b ++ SPACE ++ c))
  /\ (forall g,
        In g (extractTitleNgrams title) ->
        In 32%N g /\ 5 <= length g
        /\ (forall content, ~ In g (extractHashtags content))
        /\ (forall text n, ~ In (g, n) (extractNouns text))).
Proof.
  split; [apply titleTokens_shape|].
  split; [apply ngramLoop_length|].
  split.
  { intros H. unfold extractTitleNgrams.
    destruct (titleTokens title) as [|a [|b l]]; try reflexivity.
    simpl in H. lia. }
  split; [intros g; apply ngramLoop_In|].
  intros g Hg. apply ngramLoop_In in Hg.
  destruct Hg as [pre [a [b [post [E Hg]]]]].
  assert (In 32%N g) as Hsp.
  { destruct Hg as [-> | [c [post' [_ ->]]]];
      apply in_or_app; right; now left. }
  assert (2 <= length a /\ 2 <= length b) as [La Lb].
  { split; apply (titleTokens_shape title); rewrite E; apply in_or_app;
      right; [now left | right; now left]. }
  split; [exact Hsp|]. split.
  { destruct Hg as [-> | [c [post' [_ ->]]]]; rewrite !length_app;
      simpl length; lia. }
  split.
  - intros content HIn.
    rewrite extractHashtags_tokens, dedupFirst_In, hashtagTokens_In in HIn.
    destruct HIn as [_ [_ [_ [_ [A _]]]]].
    rewrite forallb_forall in A. specialize (A _ Hsp). discriminate.
  - intros text n HIn.
    assert (In g (nounWords text)) as Hn.
    { rewrite <- dedupFirst_In, <- extractNouns_keys. apply in_map_iff.
      now exists (g, n). }
    apply nounWords_shape in Hn. destruct Hn as [_ [A _]].
    rewrite forallb_forall in A. specialize (A _ Hsp). discriminate.
Qed.

Lemma extractTitleNgrams_neighbours_witness :
  extractTitleNgrams (utf16 "맛집!") = [].
Proof.
  apply (proj1 (proj2 (proj2 (extractTitleNgrams_neighbours (utf16 "맛집!"))))).
  vm_compute. lia.
Defined.

(** ** The search-volume lookup *)

